(** * Chatbot Clinic: the chat handlers of script.py

    A shallow embedding of the event handlers that [ui()] binds to the
    widgets of the host interface: [do_start_chat], [do_stop_chat],
    [do_send] and [do_select], together with the [State] object they
    mutate and the widget updates they return.

    Python objects that the handlers mutate in place ([State], [Bot], the
    [interface_values] dictionary) are threaded explicitly: every handler
    returns the state as it stands when the handler returns or raises.
    The host's collaborators ([start_new_chat], [load_preset],
    [generate_chat_reply]) are variables of the section. *)

From Stdlib Require Import QArith Qcanon Ascii.
From stdpp Require Import base numbers list strings gmap pretty.

Close Scope Q_scope.
Close Scope Qc_scope.
Local Open Scope string_scope.
Local Open Scope list_scope.

(** ** Data model *)

(** [class Step(Enum)] *)
Inductive Step := IDLE | WAITING_FOR_MESSAGE | GENERATING | WAITING_FOR_VOTE.

Global Instance Step_eq_dec : EqDecision Step.
Proof. solve_decision. Defined.

(** One exchange [[user_message, bot_message]] of a chat history. *)
Definition Message : Type := string * string.

(** The host's history dictionary: [{"visible": [...], "internal": [...]}]. *)
Record History := mkHistory {
  visible : list Message;
  internal : list Message
}.

(** [bot.reply = {"visible": ..., "internal": ...}] *)
Record Reply := mkReply {
  reply_visible : Message;
  reply_internal : Message
}.

(** A dictionary of generation parameters, as [load_preset] returns it
    and as [bot.parameters] holds it.  Its entries under the five keys
    that the handlers name in [interface_values] are optional fields, of
    the type the handlers give the entry; every other entry lives in
    [par_rest]. *)
Record Parameters := mkParameters {
  par_name1 : option string;
  par_name2 : option string;
  par_greeting : option string;
  par_history : option History;
  par_context : option string;
  par_rest : gmap string string
}.

(** The dictionary without any entry. *)
Global Instance Parameters_empty : Empty Parameters :=
  mkParameters None None None None None ∅.

(** [class Bot].  The attribute [reply] does not exist until [do_send]
    assigns it, hence the option. *)
Record Bot := mkBot {
  identifier : string;
  bot_context : string;
  parameters : Parameters;
  votes : nat;
  reply : option Reply
}.

(** The [interface_values] dictionary.  The entries under the keys the
    handlers read or write by name are fields; every other entry lives
    in [iv_rest].  [update(bot.parameters)] can replace any of them. *)
Record InterfaceValues := mkInterfaceValues {
  name1 : string;
  name2 : string;
  greeting : string;
  history : History;
  iv_context : string;
  iv_rest : gmap string string
}.

(** [class State], with the attributes [bot_order] and [interface_values]
    that [initialize_state] and [do_start_chat] attach to it.

    [update(bot.parameters)] stores in [interface_values] the very
    objects that the parameters of the bot hold, and [do_select] appends
    to the history in place.  [history_owner] records this sharing: it is
    the position in the roster of the bot whose parameters hold, under
    the key [history], the object that [interface_values] holds under
    that key, and [None] while that object is the one [start_new_chat]
    returned.  The objects that [start_new_chat] and each call of
    [load_preset] return are taken to be fresh, and the generator to
    leave its arguments as they are. *)
Record State := mkState {
  step : Step;
  bots : list Bot;
  bot_order : list nat;
  interface_values : InterfaceValues;
  history_owner : option nat
}.

(** Python exceptions that the handlers can let escape. *)
Inductive PyError :=
  | IndexError
  | AttributeError
  | UnboundLocalError
  | ZeroDivisionError
  | GeneratorFailure.

Global Instance PyError_eq_dec : EqDecision PyError.
Proof. solve_decision. Defined.

Inductive Result (A : Type) :=
  | Ok (a : A)
  | Raise (e : PyError).

Arguments Ok {A} a.
Arguments Raise {A} e.

(** What one call of [generate_chat_reply] produces: the histories it
    yields, in order, and whether it then raises instead of finishing. *)
Record Stream := mkStream {
  yields : list History;
  raises : bool
}.

(** ** Widgets *)

(** A row of the [gr.Chatbot] value: [[user or None, bot or None]]. *)
Definition Row : Type := option string * option string.

(** The [elem_classes] the handlers put on the chatbot component. *)
Inductive ElemClasses :=
  | NoClasses
  | ClassesGenerating (reply_count : nat)
  | ClassesWaitingForVote (reply_count : nat).

(** The properties of the widgets that the handlers update.  The third
    column of the statistics table (a percentage rounded in floating
    point) is not part of the model. *)
Record Widgets := mkWidgets {
  start_chat_visible : bool;
  stop_chat_visible : bool;
  chatbot_visible : bool;
  chatbot_value : list Row;
  chatbot_classes : ElemClasses;
  message_visible : bool;
  message_interactive : bool;
  message_value : string;
  send_visible : bool;
  send_interactive : bool;
  no_statistics_visible : bool;
  warning_visible : bool;
  ranking_title_visible : bool;
  ranking_visible : bool;
  ranking_value : gmap string Qc;
  table_title_visible : bool;
  table_visible : bool;
  table_value : list (string * nat)
}.

(** The widgets as [ui()] constructs them. *)
Definition initial_widgets : Widgets :=
  {| start_chat_visible := true;
     stop_chat_visible := false;
     chatbot_visible := false;
     chatbot_value := [];
     chatbot_classes := NoClasses;
     message_visible := false;
     message_interactive := true;
     message_value := "";
     send_visible := false;
     send_interactive := true;
     no_statistics_visible := true;
     warning_visible := false;
     ranking_title_visible := false;
     ranking_visible := false;
     ranking_value := ∅;
     table_title_visible := false;
     table_visible := false;
     table_value := [] |}.

(** ** Python list and arithmetic primitives *)

(** [l[-1]] *)
Definition py_last {A} (l : list A) : Result A :=
  match last l with
  | Some x => Ok x
  | None => Raise IndexError
  end.

(** [l[i]] for an index that is not negative. *)
Definition py_index {A} (l : list A) (i : nat) : Result A :=
  match l !! i with
  | Some x => Ok x
  | None => Raise IndexError
  end.

(** [a / b] on non-negative integers; the quotient is kept exact. *)
Definition py_truediv (a b : nat) : Result Qc :=
  if decide (b = 0) then Raise ZeroDivisionError
  else Ok (Qc_of_Z (Z.of_nat a) / Qc_of_Z (Z.of_nat b))%Qc.

(** [x[i], x[j] = x[j], x[i]] *)
Definition swap (x : list nat) (i j : nat) : list nat :=
  match x !! i, x !! j with
  | Some a, Some b => <[j := a]> (<[i := b]> x)
  | _, _ => x
  end.

(** The loop of [random.shuffle]: for [i] from [len(x) - 1] down to 1,
    exchange [x[i]] with [x[randbelow(i + 1)]].  The random source is the
    function [draw]; its value at [i] is reduced below [i + 1]. *)
Fixpoint shuffle_loop (draw : nat → nat) (i : nat) (x : list nat) : list nat :=
  match i with
  | 0 => x
  | S i' => shuffle_loop draw i' (swap x i (draw i `mod` S i))
  end.

Definition shuffle (draw : nat → nat) (x : list nat) : list nat :=
  shuffle_loop draw (pred (length x)) x.

(** [html.escape(s)] with its default [quote=True]. *)
Definition escape_char (c : Ascii.ascii) : string :=
  match Ascii.nat_of_ascii c with
  | 38 => "&amp;"
  | 60 => "&lt;"
  | 62 => "&gt;"
  | 34 => "&quot;"
  | 39 => "&#x27;"
  | _ => String c EmptyString
  end.

Fixpoint html_escape (s : string) : string :=
  match s with
  | EmptyString => EmptyString
  | String c s' => escape_char c +:+ html_escape s'
  end.

Definition dquote : string := String (Ascii.ascii_of_nat 34) EmptyString.

(** The bot cell that [do_select] appends to the visible history. *)
Definition tagged_reply (bot : Bot) (bot_message : string) : string :=
  "<div class=" +:+ dquote +:+ "chatbot-clinic-bot-identifier" +:+ dquote +:+ ">"
    +:+ html_escape (identifier bot) +:+ "</div> " +:+ bot_message.

(** [process_history] *)
Definition process_history (h : History) : list Row :=
  (λ m : Message, (if decide (m.1 = "") then None else Some m.1, Some m.2))
    <$> visible h.

(** [sum([bot.votes for bot in new_state.bots])] *)
Definition total_votes (bs : list Bot) : nat := sum_list (votes <$> bs).

(** ** Attribute and widget updates *)

Definition set_step (s : Step) (st : State) : State :=
  mkState s (bots st) (bot_order st) (interface_values st) (history_owner st).

Definition set_reply (r : Reply) (bot : Bot) : Bot :=
  mkBot (identifier bot) (bot_context bot) (parameters bot) (votes bot) (Some r).

(** [bot.votes += 1] *)
Definition add_vote (bot : Bot) : Bot :=
  mkBot (identifier bot) (bot_context bot) (parameters bot) (S (votes bot))
    (reply bot).

Definition set_history (h : History) (v : InterfaceValues) : InterfaceValues :=
  mkInterfaceValues (name1 v) (name2 v) (greeting v) h (iv_context v) (iv_rest v).

(** [interface_values["context"] = bot.context] followed by
    [interface_values.update(bot.parameters)]: every entry of the bot's
    parameters replaces the entry already present under its key, the
    context just assigned included. *)
Definition use_bot (bot : Bot) (v : InterfaceValues) : InterfaceValues :=
  let p := parameters bot in
  mkInterfaceValues
    (default (name1 v) (par_name1 p))
    (default (name2 v) (par_name2 p))
    (default (greeting v) (par_greeting p))
    (default (history v) (par_history p))
    (default (bot_context bot) (par_context p))
    (par_rest p ∪ iv_rest v).

(** The position that owns the history after [update(bot.parameters)]
    for the bot at position [i]: that bot when its parameters hold a
    history, the owner so far otherwise. *)
Definition owner_after (bot : Bot) (i : nat) (owner : option nat)
  : option nat :=
  match par_history (parameters bot) with
  | Some _ => Some i
  | None => owner
  end.

(** What an append to the shared history does to the bot that owns the
    history object: the entry of its parameters is that same object. *)
Definition own_history (h : History) (bot : Bot) : Bot :=
  let p := parameters bot in
  match par_history p with
  | Some _ =>
      mkBot (identifier bot) (bot_context bot)
        (mkParameters (par_name1 p) (par_name2 p) (par_greeting p) (Some h)
           (par_context p) (par_rest p))
        (votes bot) (reply bot)
  | None => bot
  end.

(** The roster after the shared history, owned as [owner] says, became
    [h] by an append in place. *)
Definition share_history (owner : option nat) (h : History)
    (bs : list Bot) : list Bot :=
  match owner with
  | Some j => alter (own_history h) j bs
  | None => bs
  end.

(** The dictionary [do_start_chat] returns, applied to the widgets. *)
Definition show_chat (value : list Row) (w : Widgets) : Widgets :=
  {| start_chat_visible := false;
     stop_chat_visible := true;
     chatbot_visible := true;
     chatbot_value := value;
     chatbot_classes := NoClasses;
     message_visible := true;
     message_interactive := true;
     message_value := "";
     send_visible := true;
     send_interactive := true;
     no_statistics_visible := no_statistics_visible w;
     warning_visible := warning_visible w;
     ranking_title_visible := ranking_title_visible w;
     ranking_visible := ranking_visible w;
     ranking_value := ranking_value w;
     table_title_visible := table_title_visible w;
     table_visible := table_visible w;
     table_value := table_value w |}.

(** The first [yield] of [do_send]: the message box is emptied, and the
    box and the send button stop accepting input. *)
Definition lock_input (w : Widgets) : Widgets :=
  {| start_chat_visible := start_chat_visible w;
     stop_chat_visible := stop_chat_visible w;
     chatbot_visible := chatbot_visible w;
     chatbot_value := chatbot_value w;
     chatbot_classes := chatbot_classes w;
     message_visible := message_visible w;
     message_interactive := false;
     message_value := "";
     send_visible := send_visible w;
     send_interactive := false;
     no_statistics_visible := no_statistics_visible w;
     warning_visible := warning_visible w;
     ranking_title_visible := ranking_title_visible w;
     ranking_visible := ranking_visible w;
     ranking_value := ranking_value w;
     table_title_visible := table_title_visible w;
     table_visible := table_visible w;
     table_value := table_value w |}.

(** A [gr.update] of the chatbot: its classes, and its value when given. *)
Definition set_chatbot (value : option (list Row)) (classes : ElemClasses)
    (w : Widgets) : Widgets :=
  {| start_chat_visible := start_chat_visible w;
     stop_chat_visible := stop_chat_visible w;
     chatbot_visible := chatbot_visible w;
     chatbot_value := default (chatbot_value w) value;
     chatbot_classes := classes;
     message_visible := message_visible w;
     message_interactive := message_interactive w;
     message_value := message_value w;
     send_visible := send_visible w;
     send_interactive := send_interactive w;
     no_statistics_visible := no_statistics_visible w;
     warning_visible := warning_visible w;
     ranking_title_visible := ranking_title_visible w;
     ranking_visible := ranking_visible w;
     ranking_value := ranking_value w;
     table_title_visible := table_title_visible w;
     table_visible := table_visible w;
     table_value := table_value w |}.

(** The dictionary [do_select] returns when a vote was counted. *)
Definition show_statistics (value : list Row) (ranking : gmap string Qc)
    (table : list (string * nat)) (w : Widgets) : Widgets :=
  {| start_chat_visible := start_chat_visible w;
     stop_chat_visible := stop_chat_visible w;
     chatbot_visible := chatbot_visible w;
     chatbot_value := value;
     chatbot_classes := NoClasses;
     message_visible := message_visible w;
     message_interactive := true;
     message_value := message_value w;
     send_visible := send_visible w;
     send_interactive := true;
     no_statistics_visible := false;
     warning_visible := true;
     ranking_title_visible := true;
     ranking_visible := true;
     ranking_value := ranking;
     table_title_visible := true;
     table_visible := true;
     table_value := table |}.

(** [do_stop_chat] takes no input and returns only visibility updates. *)
Definition do_stop_chat (w : Widgets) : Widgets :=
  {| start_chat_visible := true;
     stop_chat_visible := false;
     chatbot_visible := false;
     chatbot_value := chatbot_value w;
     chatbot_classes := chatbot_classes w;
     message_visible := false;
     message_interactive := message_interactive w;
     message_value := message_value w;
     send_visible := false;
     send_interactive := send_interactive w;
     no_statistics_visible := true;
     warning_visible := false;
     ranking_title_visible := false;
     ranking_visible := false;
     ranking_value := ranking_value w;
     table_title_visible := false;
     table_visible := false;
     table_value := table_value w |}.

(** ** Statistics *)

(** [{bot.identifier: bot.votes / total_votes for bot in new_state.bots}]:
    the entries are inserted in roster order, a later one replacing an
    earlier one under the same key. *)
Fixpoint ranking_data (total : nat) (bs : list Bot) (acc : gmap string Qc)
  : Result (gmap string Qc) :=
  match bs with
  | [] => Ok acc
  | bot :: bs' =>
      match py_truediv (votes bot) total with
      | Raise e => Raise e
      | Ok share => ranking_data total bs' (<[identifier bot := share]> acc)
      end
  end.

(** The first two columns of [table_data]. *)
Definition table_data (bs : list Bot) : list (string * nat) :=
  (λ bot, (identifier bot, votes bot)) <$> bs.

(** The sum of the shares that a ranking holds. *)
Definition ranking_sum (r : gmap string Qc) : Qc :=
  foldr Qcplus (Q2Qc 0) (snd <$> map_to_list r).

(** ** Configuration and events *)

(** The widgets of one chatbot slot, as read from [data]. *)
Record BotSlot := mkBotSlot {
  slot_enabled : bool;
  slot_identifier : string;
  slot_context : string;
  slot_preset : string
}.

(** The inputs of [do_start_chat] other than the state. *)
Record StartData := mkStartData {
  data_user_name : string;
  data_bot_name : string;
  data_greeting : string;
  data_slots : list BotSlot
}.

(** How a handler came to return. *)
Inductive Outcome :=
  | Started
  | Stopped
  | RepliesReady
  | VoteAccepted
  | ClickIgnored.

(** The local variables of [do_send] while it visits the bots, with the
    state attributes the loop mutates ([l_owner] is the [history_owner]
    of the state).  [l_calls] is a ghost record of the arguments of every
    [generate_chat_reply] call made so far. *)
Record Locals := mkLocals {
  l_bots : list Bot;
  l_values : InterfaceValues;
  l_owner : option nat;
  l_visible_history : list Row;
  l_history : option History;
  l_widgets : Widgets;
  l_calls : list (string * InterfaceValues)
}.

(** What [do_send] leaves behind. *)
Record Sent := mkSent {
  sent_state : State;
  sent_widgets : Widgets;
  sent_result : Result Outcome;
  sent_calls : list (string * InterfaceValues)
}.

(** [initialize_state]: a fresh [State()] holding the host's values.
    [State()] has no [bot_order] yet; the empty list stands for the
    attribute that [do_start_chat], which always runs next, assigns. *)
Definition initialize_state (host_values : InterfaceValues) : State :=
  mkState IDLE [] [] host_values None.

(** ** The handlers *)

Section Handlers.

(** The host functions the handlers call. *)
Variable start_new_chat : InterfaceValues → History.
Variable load_preset : string → Parameters.
Variable generate_chat_reply : string → InterfaceValues → Stream.

(** The [Bot] objects that the loop of [do_start_chat] appends. *)
Definition enabled_bots (slots : list BotSlot) : list Bot :=
  (λ s, mkBot (slot_identifier s) (slot_context s)
          (load_preset (slot_preset s)) 0 None)
    <$> filter (λ s, slot_enabled s = true) slots.

(** [do_start_chat] *)
Definition do_start_chat (data : StartData) (st : State) (w : Widgets)
  : State * Widgets :=
  let v := interface_values st in
  let named :=
    mkInterfaceValues (data_user_name data) (data_bot_name data)
      (data_greeting data) (history v) (iv_context v) (iv_rest v) in
  let values := set_history (start_new_chat named) named in
  let roster := bots st ++ enabled_bots (data_slots data) in
  (mkState WAITING_FOR_MESSAGE roster (seq 0 (length roster)) values None,
   show_chat (process_history (history values)) w).

(** The body of [for history in generate_chat_reply(...)], run over the
    items the generator yields.  [shown] is [visible_history] without its
    last row and [row] is that last row. *)
Fixpoint consume (reply_count : nat) (shown : list Row) (items : list History)
    (row : Row) (hvar : option History) (w : Widgets)
  : Widgets * Result (Row * option History) :=
  match items with
  | [] => (w, Ok (row, hvar))
  | h :: items' =>
      match py_last (visible h) with
      | Raise e => (w, Raise e)
      | Ok m =>
          let row' :=
            (if decide (reply_count = 1 ∧ m.1 ≠ "") then Some m.1 else row.1,
             Some m.2) in
          consume reply_count shown items' row' (Some h)
            (set_chatbot (Some (shown ++ [row']))
               (ClassesGenerating reply_count) w)
      end
  end.

(** One turn of [for reply_count, bot_index in enumerate(...)]. *)
Definition visit (text : string) (reply_count bot_index : nat) (c : Locals)
  : Locals * Result unit :=
  match py_index (l_bots c) bot_index with
  | Raise e => (c, Raise e)
  | Ok bot =>
      let values := use_bot bot (l_values c) in
      let owner := owner_after bot bot_index (l_owner c) in
      let shown := l_visible_history c in
      let calls := l_calls c ++ [(text, values)] in
      let stream := generate_chat_reply text values in
      match consume reply_count shown (yields stream) (None, None)
              (l_history c) (l_widgets c) with
      | (w, Raise e) =>
          (mkLocals (l_bots c) values owner (shown ++ [(None, None)])
             (l_history c) w calls, Raise e)
      | (w, Ok (row, hvar)) =>
          let c' :=
            mkLocals (l_bots c) values owner (shown ++ [row]) hvar w calls in
          if raises stream then (c', Raise GeneratorFailure)
          else
            match hvar with
            | None => (c', Raise UnboundLocalError)
            | Some h =>
                match py_last (visible h), py_last (internal h) with
                | Ok v, Ok i =>
                    (mkLocals
                       (<[bot_index := set_reply (mkReply v i) bot]> (l_bots c))
                       values owner (shown ++ [row]) hvar w calls, Ok ())
                | Raise e, _ => (c', Raise e)
                | _, Raise e => (c', Raise e)
                end
            end
      end
  end.

Fixpoint visit_all (text : string) (reply_count : nat) (order : list nat)
    (c : Locals) : Locals * Result unit :=
  match order with
  | [] => (c, Ok ())
  | bot_index :: order' =>
      match visit text reply_count bot_index c with
      | (c', Ok _) => visit_all text (S reply_count) order' c'
      | (c', Raise e) => (c', Raise e)
      end
  end.

(** [do_send], run to its end or to the exception that stops it.  [text]
    is [data[message]] and [draw] the random source of [shuffle]. *)
Definition do_send (text : string) (draw : nat → nat) (st : State)
    (w : Widgets) : Sent :=
  let order := shuffle draw (bot_order st) in
  let start :=
    mkLocals (bots st) (interface_values st) (history_owner st)
      (process_history (history (interface_values st))) None
      (lock_input w) [] in
  match visit_all text 1 order start with
  | (c, Raise e) =>
      mkSent (mkState GENERATING (l_bots c) order (l_values c) (l_owner c))
        (l_widgets c) (Raise e) (l_calls c)
  | (c, Ok _) =>
      let st' :=
        mkState WAITING_FOR_VOTE (l_bots c) order (l_values c) (l_owner c) in
      match order with
      | [] => mkSent st' (l_widgets c) (Raise UnboundLocalError) (l_calls c)
      | _ :: _ =>
          mkSent st'
            (set_chatbot None (ClassesWaitingForVote (length order))
               (l_widgets c))
            (Ok RepliesReady) (l_calls c)
      end
  end.

(** [do_select], for the click [event.index = (index, sender)]. *)
Definition do_select (index sender : Z) (st : State) (w : Widgets)
  : State * Widgets * Result Outcome :=
  let h := history (interface_values st) in
  if decide (step st = WAITING_FOR_VOTE ∧ sender = 1%Z
             ∧ (Z.of_nat (length (visible h)) ≤ index)%Z)
  then
    let bot_index := Z.to_nat (index - Z.of_nat (length (visible h))) in
    match py_index (bot_order st) bot_index with
    | Raise e => (st, w, Raise e)
    | Ok i =>
        match py_index (bots st) i with
        | Raise e => (st, w, Raise e)
        | Ok bot =>
            match reply bot with
            | None => (set_step WAITING_FOR_MESSAGE st, w, Raise AttributeError)
            | Some r =>
                let h' :=
                  mkHistory
                    (visible h
                     ++ [((reply_visible r).1,
                          tagged_reply bot (reply_visible r).2)])
                    (internal h ++ [reply_internal r]) in
                let roster :=
                  share_history (history_owner st) h'
                    (<[i := add_vote bot]> (bots st)) in
                let st' :=
                  mkState WAITING_FOR_MESSAGE roster (bot_order st)
                    (set_history h' (interface_values st))
                    (history_owner st) in
                match ranking_data (total_votes roster) roster ∅ with
                | Raise e => (st', w, Raise e)
                | Ok ranking =>
                    (st',
                     show_statistics (process_history h') ranking
                       (table_data roster) w,
                     Ok VoteAccepted)
                end
            end
        end
    end
  else (st, w, Ok ClickIgnored).

(** ** The application: the stored state and the widgets *)

(** [gr.State()] holds nothing until the first chat is started. *)
Record App := mkApp {
  session : option State;
  widgets : Widgets
}.

Definition initial_app : App := mkApp None initial_widgets.

(** The events the handlers are bound to.  A click on the start button
    runs [initialize_state] on the host's values and then
    [do_start_chat]. *)
Inductive Event :=
  | StartChatClick (host_values : InterfaceValues) (data : StartData)
  | StopChatClick
  | SendMessage (text : string) (draw : nat → nat)
  | ChatbotSelect (index sender : Z).

(** One event.  A handler that reads an attribute of the state while
    the stored value is still [None] raises [AttributeError]. *)
Definition dispatch (ev : Event) (app : App) : App * Result Outcome :=
  match ev with
  | StartChatClick host_values data =>
      let '(st, w) :=
        do_start_chat data (initialize_state host_values) (widgets app) in
      (mkApp (Some st) w, Ok Started)
  | StopChatClick => (mkApp (session app) (do_stop_chat (widgets app)), Ok Stopped)
  | SendMessage text draw =>
      match session app with
      | None => (app, Raise AttributeError)
      | Some st =>
          let s := do_send text draw st (widgets app) in
          (mkApp (Some (sent_state s)) (sent_widgets s), sent_result s)
      end
  | ChatbotSelect index sender =>
      match session app with
      | None => (app, Raise AttributeError)
      | Some st =>
          let '(st', w, r) := do_select index sender st (widgets app) in
          (mkApp (Some st') w, r)
      end
  end.

(** The voting rounds completed in the running chat: reset by a start,
    advanced by every vote the handler counts. *)
Definition rounds_after (ev : Event) (r : Result Outcome) (n : nat) : nat :=
  match ev, r with
  | StartChatClick _ _, _ => 0
  | _, Ok VoteAccepted => S n
  | _, _ => n
  end.

(** A sequence of events, from an application and a number of rounds. *)
Fixpoint run (evs : list Event) (app : App) (n : nat) : App * nat :=
  match evs with
  | [] => (app, n)
  | ev :: evs' =>
      let '(app', r) := dispatch ev app in
      run evs' app' (rounds_after ev r n)
  end.

(** A generator call that finishes without raising. *)
Definition quiet (call : string * InterfaceValues) : Prop :=
  raises (generate_chat_reply call.1 call.2) = false.

(** A generator call that yields at least one history. *)
Definition productive (call : string * InterfaceValues) : Prop :=
  yields (generate_chat_reply call.1 call.2) ≠ [].

End Handlers.

(** ** Vocabulary of the properties *)

(** The states in which every position of [bot_order] names one bot of
    the roster and every bot is named once. *)
Definition well_formed (st : State) : Prop :=
  bot_order st ≡ₚ seq 0 (length (bots st)).

(** The exact share of a bot. *)
Definition share (total : nat) (bot : Bot) : Qc :=
  (Qc_of_Z (Z.of_nat (votes bot)) / Qc_of_Z (Z.of_nat total))%Qc.

(** The state [do_select] leaves when it counts a vote for the bot at
    position [i] of the roster. *)
Definition accepted (st : State) (i : nat) (bot : Bot) (r : Reply) : State :=
  let h := history (interface_values st) in
  let h' :=
    mkHistory
      (visible h
       ++ [((reply_visible r).1, tagged_reply bot (reply_visible r).2)])
      (internal h ++ [reply_internal r]) in
  mkState WAITING_FOR_MESSAGE
    (share_history (history_owner st) h' (<[i := add_vote bot]> (bots st)))
    (bot_order st) (set_history h' (interface_values st)) (history_owner st).

(** The click position of the [k]-th pending reply. *)
Definition pending_index (st : State) (k : nat) : Z :=
  Z.of_nat (length (visible (history (interface_values st))) + k).

(** What a turn of the loop preserves, whether it ends or raises. *)
Definition extends (text : string) (c c' : Locals) : Prop :=
  identifier <$> l_bots c' = identifier <$> l_bots c
  ∧ votes <$> l_bots c' = votes <$> l_bots c
  ∧ parameters <$> l_bots c' = parameters <$> l_bots c
  ∧ ∃ more,
      l_calls c' = l_calls c ++ more
      ∧ Forall (λ call, call.1 = text) more.

(** A roster none of whose bots holds an entry under the key [history]
    in its parameters. *)
Definition no_history_entry (bs : list Bot) : Prop :=
  Forall (λ bot, par_history (parameters bot) = None) bs.

(** The loop only updates the chatbot: the message box and the send
    button stay as the first [yield] left them. *)
Definition same_input (w w' : Widgets) : Prop :=
  message_interactive w' = message_interactive w
  ∧ send_interactive w' = send_interactive w.

(** A bot that holds a reply. *)
Definition has_reply (bs : list Bot) (i : nat) : Prop :=
  ∃ bot r, bs !! i = Some bot ∧ reply bot = Some r.

(** The row shown for a bot carries the bot message of its reply. *)
Definition shows (bs : list Bot) (row : Row) (i : nat) : Prop :=
  ∃ bot r, bs !! i = Some bot ∧ reply bot = Some r
           ∧ row.2 = Some (reply_visible r).2.

(** What holds between the stored state and the number of rounds. *)
Definition tallied (app : App) (n : nat) : Prop :=
  match session app with
  | None => n = 0
  | Some st => well_formed st ∧ total_votes (bots st) = n
  end.

(** * A concrete chat

    Stub collaborators and a small chat, used to run the handlers. *)

Module Scenario.

(** A new chat opens with the greeting. *)
Definition stub_start (v : InterfaceValues) : History :=
  mkHistory [("", greeting v)] [("", greeting v)].

Definition stub_preset (_ : string) : Parameters := ∅.

(** A generator that yields one history: the old one and the exchange. *)
Definition stub_generate (text : string) (v : InterfaceValues) : Stream :=
  let exchange := (text, "reply" +:+ iv_context v) in
  mkStream
    [mkHistory (visible (history v) ++ [exchange])
       (internal (history v) ++ [exchange])]
    false.

(** A generator that raises for the bot whose context is ["b"]. *)
Definition stub_failing (text : string) (v : InterfaceValues) : Stream :=
  if decide (iv_context v = "b") then mkStream [] true
  else stub_generate text v.

Definition host_values : InterfaceValues :=
  mkInterfaceValues "" "" "" (mkHistory [] []) "" ∅.

Definition three_bots : StartData :=
  mkStartData "You" "Bot" "Hello"
    [mkBotSlot true "A" "a" "p"; mkBotSlot true "B" "b" "p";
     mkBotSlot false "D" "d" "p"; mkBotSlot true "C" "c" "p"].

Definition no_bots : StartData :=
  mkStartData "You" "Bot" "Hello"
    [mkBotSlot false "A" "a" "p"; mkBotSlot false "B" "b" "p"].

Definition twins : StartData :=
  mkStartData "You" "Bot" "Hello"
    [mkBotSlot true "A" "a" "p"; mkBotSlot true "A" "b" "p"].

(** A random source that always draws the first position. *)
Definition first_slot (_ : nat) : nat := 0.

Definition go (evs : list Event) : App :=
  (run stub_start stub_preset stub_generate evs initial_app 0).1.

(** The chat of three bots after its start. *)
Definition started : State :=
  (do_start_chat stub_start stub_preset three_bots
     (initialize_state host_values) initial_widgets).1.

Definition started_widgets : Widgets :=
  (do_start_chat stub_start stub_preset three_bots
     (initialize_state host_values) initial_widgets).2.

(** The same chat once the three replies to ["hi"] are ready: the bots
    were visited in the order B, C, A. *)
Definition waiting : State :=
  sent_state (do_send stub_generate "hi" first_slot started started_widgets).

Definition waiting_widgets : Widgets :=
  sent_widgets (do_send stub_generate "hi" first_slot started started_widgets).

Definition bot_B : Bot :=
  mkBot "B" "b" ∅ 0 (Some (mkReply ("hi", "replyb") ("hi", "replyb"))).

Definition reply_B : Reply := mkReply ("hi", "replyb") ("hi", "replyb").

(** The chat of the twins once the replies are ready, visited in roster
    order. *)
Definition twins_waiting : Sent :=
  do_send stub_generate "hi" (λ i, i)
    (do_start_chat stub_start stub_preset twins
       (initialize_state host_values) initial_widgets).1
    (do_start_chat stub_start stub_preset twins
       (initialize_state host_values) initial_widgets).2.

End Scenario.

(** ** Vocabulary of the further properties *)

(** A generator that never raises and always yields at least one
    history, each with a last exchange on both of its sides. *)
Definition well_behaved
    (generate_chat_reply : string → InterfaceValues → Stream) : Prop :=
  ∀ text v,
    raises (generate_chat_reply text v) = false
    ∧ yields (generate_chat_reply text v) ≠ []
    ∧ Forall (λ h, visible h ≠ [] ∧ internal h ≠ [])
        (yields (generate_chat_reply text v)).

(** A sequence of events without a click on the start button. *)
Definition no_start (evs : list Event) : Prop :=
  Forall (λ ev, match ev with StartChatClick _ _ => False | _ => True end) evs.

(** The value of the loop variable [history] of [do_send] once the
    generator calls [calls] were consumed, starting from [hvar]: the last
    history that any of them yielded. *)
Definition last_yielded
    (generate_chat_reply : string → InterfaceValues → Stream)
    (hvar : option History) (calls : list (string * InterfaceValues))
  : option History :=
  foldl
    (λ h call,
       match last (yields (generate_chat_reply call.1 call.2)) with
       | Some h' => Some h'
       | None => h
       end)
    hvar calls.

(** Further stubs for the edge cases of a round. *)
Module Edge.

(** A generator that yields nothing for the bot whose context is ["c"]. *)
Definition stub_silent (text : string) (v : InterfaceValues) : Stream :=
  if decide (iv_context v = "c") then mkStream [] false
  else Scenario.stub_generate text v.

(** The round of the chat of three bots in which C, asked second, stays
    silent. *)
Definition silent_round : Sent :=
  do_send stub_silent "hi" Scenario.first_slot Scenario.started
    Scenario.started_widgets.

(** A generator that yields nothing at all. *)
Definition stub_mute (text : string) (v : InterfaceValues) : Stream :=
  mkStream [] false.

(** A generator that yields nothing for the bot whose context is ["a"]. *)
Definition stub_silent_last (text : string) (v : InterfaceValues) : Stream :=
  if decide (iv_context v = "a") then mkStream [] false
  else Scenario.stub_generate text v.

(** The round of the chat of three bots in which A, asked last, stays
    silent. *)
Definition silent_last_round : Sent :=
  do_send stub_silent_last "hi" Scenario.first_slot Scenario.started
    Scenario.started_widgets.

(** A preset loader whose preset ["canned"] holds a [history] entry and a
    [context] entry. *)
Definition canned_history : History := mkHistory [("x", "y")] [("x", "y")].

Definition stub_canned (name : string) : Parameters :=
  if decide (name = "canned")
  then mkParameters None None None (Some canned_history) (Some "z") ∅
  else ∅.

(** A chat of two bots, the second of which uses the preset ["canned"]. *)
Definition canned_bots : StartData :=
  mkStartData "You" "Bot" "Hello"
    [mkBotSlot true "A" "a" "p"; mkBotSlot true "B" "b" "canned"].

Definition canned_started : State :=
  (do_start_chat Scenario.stub_start stub_canned canned_bots
     (initialize_state Scenario.host_values) initial_widgets).1.

(** Its first round, the bots asked in roster order. *)
Definition canned_round : Sent :=
  do_send Scenario.stub_generate "hi" (λ i, i) canned_started
    (do_start_chat Scenario.stub_start stub_canned canned_bots
       (initialize_state Scenario.host_values) initial_widgets).2.

End Edge.

(** The characters that [html.escape] replaces. *)
Definition special_chars : list Ascii.ascii :=
  Ascii.ascii_of_nat <$> [38; 60; 62; 34; 39].

(** The characters that open or close markup or an attribute value. *)
Definition markup_chars : list Ascii.ascii :=
  Ascii.ascii_of_nat <$> [60; 62; 34; 39].

(** What stays constant about a bot while a chat runs: its identifier,
    its context, and its parameters apart from the history entry, to
    which [do_select] appends when [interface_values] shares it. *)
Definition settings (bot : Bot) : string * string * Parameters :=
  let p := parameters bot in
  (identifier bot, bot_context bot,
   mkParameters (par_name1 p) (par_name2 p) (par_greeting p) None
     (par_context p) (par_rest p)).

(** How the state of a running chat relates to an earlier state of it:
    the roster keeps its settings and no vote is taken back; when no
    preset holds a history entry, the parameters are what they were and
    each side of the history has grown by as many exchanges as votes
    were counted. *)
Definition continues (st st' : State) : Prop :=
  settings <$> bots st' = settings <$> bots st
  ∧ Forall2 le (votes <$> bots st) (votes <$> bots st')
  ∧ (no_history_entry (bots st) →
     parameters <$> bots st' = parameters <$> bots st
     ∧ (length (visible (history (interface_values st')))
        + total_votes (bots st)
        = length (visible (history (interface_values st)))
          + total_votes (bots st'))%nat
     ∧ (length (internal (history (interface_values st')))
        + total_votes (bots st)
        = length (internal (history (interface_values st)))
          + total_votes (bots st'))%nat).

(** A history with as many internal as visible exchanges. *)
Definition aligned (h : History) : Prop :=
  length (visible h) = length (internal h).

(** What the widgets and the stored state of a started chat agree on. *)
Definition coherent (app : App) : Prop :=
  match session app with
  | None => True
  | Some st =>
      (message_interactive (widgets app) = true
       ↔ step st = WAITING_FOR_MESSAGE)
      ∧ (send_interactive (widgets app) = true
         ↔ step st = WAITING_FOR_MESSAGE)
      ∧ step st ≠ IDLE
      ∧ well_formed st
      ∧ (step st = WAITING_FOR_VOTE →
         Forall (has_reply (bots st)) (bot_order st))
  end.

(** The values the widgets of slot [i] hold as [ui()] creates them: the
    accordion is open for the first [enabled] slots, and the identifier is
    the prefix, a space and the number of the slot, counted from one. *)
Definition default_slot (enabled : nat) (prefix context preset : string)
    (i : nat) : BotSlot :=
  mkBotSlot (bool_decide (i < enabled)%nat) (prefix +:+ " " +:+ pretty (S i))
    context preset.

(** The slots of [ui()], for [i] in [range(max_bots)]. *)
Definition default_slots (max_bots enabled : nat)
    (prefix context preset : string) : list BotSlot :=
  default_slot enabled prefix context preset <$> seq 0 max_bots.



(** * Properties *)

(** ** The handlers on the concrete chat *)

Example shuffle_first_slot :
  shuffle Scenario.first_slot [0; 1; 2] = [1; 2; 0].
Proof. reflexivity. Qed.

Example html_escape_markup : html_escape "a<b&c" = "a&lt;b&amp;c".
Proof. reflexivity. Qed.

Example started_roster :
  (λ bot, (identifier bot, votes bot)) <$> bots Scenario.started
  = [("A", 0); ("B", 0); ("C", 0)].
Proof. reflexivity. Qed.

Example waiting_order : bot_order Scenario.waiting = [1; 2; 0].
Proof. vm_compute. reflexivity. Qed.

Example waiting_rows :
  chatbot_value Scenario.waiting_widgets
  = [(None, Some "Hello"); (Some "hi", Some "replyb");
     (None, Some "replyc"); (None, Some "replya")].
Proof. vm_compute. reflexivity. Qed.

Example vote_for_B :
  (λ bot, (identifier bot, votes bot))
    <$> bots (do_select 1 1 Scenario.waiting Scenario.waiting_widgets).1.1
  = [("A", 0); ("B", 1); ("C", 0)].
Proof. vm_compute. reflexivity. Qed.

(** The tag of the chosen reply, for an identifier that holds markup:
    the vote for the only bot of a chat, whose identifier is [<B&>]. *)
Example vote_escapes_identifier :
  let st :=
    mkState WAITING_FOR_VOTE
      [mkBot "<B&>" "b" ∅ 0 (Some (mkReply ("hi", "yes") ("hi!", "yes!")))]
      [0] Scenario.host_values None in
  history (interface_values (do_select 0 1 st initial_widgets).1.1)
  = mkHistory
      [("hi",
        "<div class="
        +:+ String "034"%char
              ("chatbot-clinic-bot-identifier"
               +:+ String "034"%char ">&lt;B&amp;&gt;</div> yes"))]
      [("hi!", "yes!")].
Proof. vm_compute. reflexivity. Qed.

(** ** The shuffle *)

(** Exchanging two entries rearranges the list: the exchange of the two
    positions is the injection that relates the lookups. *)
Lemma swap_Permutation x i j : swap x i j ≡ₚ x.
Proof.
  unfold swap.
  destruct (x !! i) as [a|] eqn:Hi; [|done].
  destruct (x !! j) as [b|] eqn:Hj; [|done].
  apply Permutation_inj. split; [by rewrite !length_insert|].
  exists (λ k, if decide (k = i) then j else if decide (k = j) then i else k).
  split.
  - intros k1 k2. repeat case_decide; congruence.
  - intros k.
    pose proof (lookup_lt_Some _ _ _ Hi). pose proof (lookup_lt_Some _ _ _ Hj).
    rewrite !list_lookup_insert, !length_insert.
    repeat case_decide; destruct_and?; subst; try done; try lia; congruence.
Qed.

Lemma shuffle_loop_Permutation draw i x : shuffle_loop draw i x ≡ₚ x.
Proof.
  revert x. induction i as [|i IH]; intros x; simpl; [done|].
  rewrite IH. apply swap_Permutation.
Qed.

Lemma shuffle_Permutation draw x : shuffle draw x ≡ₚ x.
Proof. apply shuffle_loop_Permutation. Qed.

(** ** Rosters and bot orders *)

Lemma well_formed_NoDup st : well_formed st → NoDup (bot_order st).
Proof. unfold well_formed. intros Hwf. rewrite Hwf. apply NoDup_seq. Qed.

Lemma well_formed_lookup st k i :
  well_formed st → bot_order st !! k = Some i → i < length (bots st).
Proof.
  unfold well_formed. intros Hwf Hk.
  assert (i ∈ seq 0 (length (bots st))) as Hin.
  { rewrite <-Hwf. by eapply list_elem_of_lookup_2. }
  apply elem_of_seq in Hin. lia.
Qed.

Lemma well_formed_length st :
  well_formed st → length (bot_order st) = length (bots st).
Proof. unfold well_formed. intros Hwf. rewrite Hwf. apply length_seq. Qed.

Lemma total_votes_insert bs i bot :
  bs !! i = Some bot →
  total_votes (<[i := add_vote bot]> bs) = S (total_votes bs).
Proof.
  unfold total_votes. revert i.
  induction bs as [|b bs IH]; intros [|i] Hi; simplify_eq/=; [done|].
  rewrite IH by done. lia.
Qed.

Lemma own_history_identifier h bot :
  identifier (own_history h bot) = identifier bot.
Proof. unfold own_history. by destruct (par_history _). Qed.

Lemma own_history_votes h bot : votes (own_history h bot) = votes bot.
Proof. unfold own_history. by destruct (par_history _). Qed.

Lemma own_history_reply h bot : reply (own_history h bot) = reply bot.
Proof. unfold own_history. by destruct (par_history _). Qed.

Lemma own_history_context h bot :
  bot_context (own_history h bot) = bot_context bot.
Proof. unfold own_history. by destruct (par_history _). Qed.

Lemma fmap_share_history {B} (f : Bot → B) owner h (bs : list Bot) :
  (∀ bot, f (own_history h bot) = f bot) →
  f <$> share_history owner h bs = f <$> bs.
Proof.
  intros Hf. destruct owner as [j|]; [|done]. unfold share_history.
  rewrite (list_fmap_alter f (own_history h) id)
    by (apply Forall_forall; intros; apply Hf).
  by apply list_alter_id.
Qed.

Lemma length_share_history owner h (bs : list Bot) :
  length (share_history owner h bs) = length bs.
Proof. destruct owner; [apply length_alter|done]. Qed.

Lemma total_votes_accepted st i bot r :
  bots st !! i = Some bot →
  total_votes (bots (accepted st i bot r)) = S (total_votes (bots st)).
Proof.
  intros Hbot. unfold total_votes. simpl.
  rewrite (fmap_share_history votes) by apply own_history_votes.
  by apply total_votes_insert.
Qed.

Lemma fmap_insert_vote {B} (f : Bot → B) (bs : list Bot) (i : nat) bot :
  bs !! i = Some bot → f (add_vote bot) = f bot →
  f <$> <[i := add_vote bot]> bs = f <$> bs.
Proof.
  intros Hi Hf. rewrite list_fmap_insert, Hf. apply list_insert_id.
  by rewrite list_lookup_fmap, Hi.
Qed.

(** ** Statistics *)

Lemma ranking_data_Ok total bs acc :
  total ≠ 0 → ∃ r, ranking_data total bs acc = Ok r.
Proof.
  intros Ht. revert acc. induction bs as [|b bs IH]; intros acc; simpl; [eauto|].
  unfold py_truediv. destruct (decide (total = 0)); [done|]. apply IH.
Qed.

Lemma ranking_sum_empty : ranking_sum ∅ = Q2Qc 0.
Proof. unfold ranking_sum. by rewrite map_to_list_empty. Qed.

Lemma ranking_sum_insert (m : gmap string Qc) k q :
  m !! k = None → ranking_sum (<[k := q]> m) = (q + ranking_sum m)%Qc.
Proof.
  intros Hk. unfold ranking_sum.
  transitivity (foldr Qcplus (Q2Qc 0) (snd <$> (k, q) :: map_to_list m));
    [|done].
  apply (foldr_permutation_proper (=) Qcplus).
  - solve_proper.
  - intros a1 a2 b. rewrite !Qcplus_assoc. f_equal. apply Qcplus_comm.
  - by rewrite map_to_list_insert.
Qed.

Lemma ranking_data_distinct total bs acc r :
  NoDup (identifier <$> bs) →
  (∀ b, b ∈ bs → acc !! identifier b = None) →
  ranking_data total bs acc = Ok r →
  (∀ b, b ∈ bs → r !! identifier b = Some (share total b))
  ∧ (∀ k, k ∉ identifier <$> bs → r !! k = acc !! k)
  ∧ ranking_sum r
    = (ranking_sum acc + foldr Qcplus (Q2Qc 0) (share total <$> bs))%Qc.
Proof.
  revert acc. induction bs as [|b bs IH]; intros acc Hnd Hacc Hr; simpl in *.
  - simplify_eq. split_and!; [by intros ? ?%elem_of_nil|done|].
    by rewrite Qcplus_0_r.
  - unfold py_truediv in Hr. destruct (decide (total = 0)); [done|].
    apply NoDup_cons in Hnd as [Hb Hnd].
    apply IH in Hr as (Hin & Hout & Hsum); [|done|].
    + split_and!.
      * intros b' [->|Hb']%elem_of_cons; [|by apply Hin].
        rewrite Hout by done. by rewrite lookup_insert_eq.
      * intros k Hk. apply not_elem_of_cons in Hk as [? ?].
        rewrite Hout by done. by rewrite lookup_insert_ne.
      * rewrite Hsum, ranking_sum_insert by (apply Hacc; left).
        fold (share total b). rewrite !Qcplus_assoc. f_equal.
        apply Qcplus_comm.
    + intros b' Hb'. rewrite lookup_insert_ne; [apply Hacc; by right|].
      intros Heq. apply Hb. rewrite Heq. by apply list_elem_of_fmap_2.
Qed.

Lemma share_sum total bs :
  foldr Qcplus (Q2Qc 0) (share total <$> bs)
  = (Qc_of_Z (Z.of_nat (total_votes bs)) / Qc_of_Z (Z.of_nat total))%Qc.
Proof.
  induction bs as [|b bs IH].
  - unfold Qcdiv. change (Z.of_nat (total_votes [])) with 0%Z.
    by rewrite Z2Qc_inj_0, Qcmult_0_l.
  - rewrite fmap_cons. cbn [foldr]. rewrite IH.
    change (total_votes (b :: bs)) with (votes b + total_votes bs).
    unfold share, Qcdiv.
    by rewrite Nat2Z.inj_add, Z2Qc_inj_add, Qcmult_plus_distr_l.
Qed.

Lemma share_sum_total bs :
  total_votes bs ≠ 0 →
  foldr Qcplus (Q2Qc 0) (share (total_votes bs) <$> bs) = Q2Qc 1.
Proof.
  intros Ht. rewrite share_sum. unfold Qcdiv. apply Qcmult_inv_r.
  rewrite <-Z2Qc_inj_0. intros ?%Z2Qc_inj. lia.
Qed.

(** ** The vote handler *)

Lemma do_select_ignored index sender st w :
  ¬ (step st = WAITING_FOR_VOTE ∧ sender = 1%Z
     ∧ (Z.of_nat (length (visible (history (interface_values st)))) ≤ index)%Z) →
  do_select index sender st w = (st, w, Ok ClickIgnored).
Proof. intros Hg. unfold do_select. by rewrite decide_False. Qed.

Lemma do_select_guarded index st w :
  step st = WAITING_FOR_VOTE →
  (Z.of_nat (length (visible (history (interface_values st)))) ≤ index)%Z →
  ∃ k, index = pending_index st k
       ∧ do_select index 1 st w
         = match py_index (bot_order st) k with
           | Raise e => (st, w, Raise e)
           | Ok i =>
               match py_index (bots st) i with
               | Raise e => (st, w, Raise e)
               | Ok bot =>
                   match reply bot with
                   | None =>
                       (set_step WAITING_FOR_MESSAGE st, w, Raise AttributeError)
                   | Some r =>
                       let roster := bots (accepted st i bot r) in
                       match ranking_data (total_votes roster) roster ∅ with
                       | Raise e => (accepted st i bot r, w, Raise e)
                       | Ok ranking =>
                           (accepted st i bot r,
                            show_statistics
                              (process_history
                                 (history (interface_values (accepted st i bot r))))
                              ranking (table_data roster) w,
                            Ok VoteAccepted)
                       end
                   end
               end
           end.
Proof.
  intros Hs Hi.
  exists (Z.to_nat (index - Z.of_nat (length (visible (history (interface_values st)))))).
  split; [unfold pending_index; lia|].
  unfold do_select. rewrite decide_True by done. done.
Qed.

Lemma pending_index_ge st k :
  (Z.of_nat (length (visible (history (interface_values st))))
   ≤ pending_index st k)%Z.
Proof. unfold pending_index. lia. Qed.

Lemma pending_index_inj st k k' :
  pending_index st k = pending_index st k' → k = k'.
Proof. unfold pending_index. lia. Qed.

(** A click past the last pending reply: the lookup in [bot_order]
    raises before anything is assigned. *)
Lemma do_select_out_of_range st w k :
  step st = WAITING_FOR_VOTE →
  (length (bot_order st) ≤ k)%nat →
  do_select (pending_index st k) 1 st w = (st, w, Raise IndexError).
Proof.
  intros Hs Hk.
  destruct (do_select_guarded (pending_index st k) st w Hs (pending_index_ge st k))
    as (k' & Hk' & ->).
  apply pending_index_inj in Hk' as <-.
  unfold py_index. by rewrite lookup_ge_None_2.
Qed.

(** A click on the [k]-th pending reply counts one vote for the bot
    that [bot_order] names at [k]. *)
Lemma do_select_accept st w k i bot r :
  step st = WAITING_FOR_VOTE →
  bot_order st !! k = Some i →
  bots st !! i = Some bot →
  reply bot = Some r →
  ∃ ranking,
    ranking_data (total_votes (bots (accepted st i bot r)))
      (bots (accepted st i bot r)) ∅ = Ok ranking
    ∧ do_select (pending_index st k) 1 st w
      = (accepted st i bot r,
         show_statistics
           (process_history (history (interface_values (accepted st i bot r))))
           ranking (table_data (bots (accepted st i bot r))) w,
         Ok VoteAccepted).
Proof.
  intros Hs Hk Hi Hr.
  destruct (do_select_guarded (pending_index st k) st w Hs (pending_index_ge st k))
    as (k' & Hk' & ->).
  apply pending_index_inj in Hk' as <-.
  unfold py_index. rewrite Hk, Hi, Hr. cbn zeta.
  destruct (ranking_data_Ok (total_votes (bots (accepted st i bot r)))
              (bots (accepted st i bot r)) ∅) as [ranking Hrank].
  { rewrite (total_votes_accepted _ _ _ _ Hi). lia. }
  exists ranking. split; [done|]. by rewrite Hrank.
Qed.

(** The four ways in which [do_select] can end. *)
Lemma do_select_cases index sender st w :
  do_select index sender st w = (st, w, Ok ClickIgnored)
  ∨ do_select index sender st w = (st, w, Raise IndexError)
  ∨ do_select index sender st w
    = (set_step WAITING_FOR_MESSAGE st, w, Raise AttributeError)
  ∨ ∃ k i bot r ranking,
      step st = WAITING_FOR_VOTE ∧ sender = 1%Z
      ∧ index = pending_index st k
      ∧ bot_order st !! k = Some i ∧ bots st !! i = Some bot
      ∧ reply bot = Some r
      ∧ ranking_data (total_votes (bots (accepted st i bot r)))
          (bots (accepted st i bot r)) ∅ = Ok ranking
      ∧ do_select index sender st w
        = (accepted st i bot r,
           show_statistics
             (process_history (history (interface_values (accepted st i bot r))))
             ranking (table_data (bots (accepted st i bot r))) w,
           Ok VoteAccepted).
Proof.
  destruct (decide (step st = WAITING_FOR_VOTE ∧ sender = 1%Z
     ∧ (Z.of_nat (length (visible (history (interface_values st)))) ≤ index)%Z))
    as [(Hs & -> & Hi)|Hg]; [|left; by apply do_select_ignored].
  destruct (do_select_guarded index st w Hs Hi) as (k & -> & Heq).
  unfold py_index in Heq.
  destruct (bot_order st !! k) as [i|] eqn:Hk; [|by right; left].
  destruct (bots st !! i) as [bot|] eqn:Hbot; [|by right; left].
  destruct (reply bot) as [r|] eqn:Hr; [|by right; right; left].
  right; right; right.
  destruct (do_select_accept st w k i bot r Hs Hk Hbot Hr) as (ranking & ? & ?).
  by exists k, i, bot, r, ranking.
Qed.

(** ** The generation round *)

Section Round.

Variable generate_chat_reply : string → InterfaceValues → Stream.

Lemma consume_Raise rc shown items row hvar w w' e :
  consume rc shown items row hvar w = (w', Raise e) → e = IndexError.
Proof.
  revert row hvar w. induction items as [|h items IH]; intros row hvar w; simpl.
  - done.
  - unfold py_last. destruct (last (visible h)); [apply IH|]. by intros [= _ <-].
Qed.

(** What the loop over a stream leaves in the last row: with no item the
    row is untouched and nothing is shown; otherwise the bot cell holds the
    bot message of the last item, and the chatbot shows that row. *)
Lemma consume_Ok rc shown items row hvar w w' row' hvar' :
  consume rc shown items row hvar w = (w', Ok (row', hvar')) →
  (items = [] ∧ row' = row ∧ hvar' = hvar ∧ w' = w)
  ∨ (∃ h m, last items = Some h ∧ hvar' = Some h
            ∧ last (visible h) = Some m ∧ row'.2 = Some m.2
            ∧ chatbot_value w' = shown ++ [row']).
Proof.
  revert row hvar w. induction items as [|h items IH]; intros row hvar w; simpl.
  - intros [= <- <- <-]. by left.
  - unfold py_last. destruct (last (visible h)) as [m|] eqn:Hm; [|done].
    intros Hc. right. apply IH in Hc as [(-> & -> & -> & ->)|Hc].
    + by exists h, m.
    + destruct Hc as (h' & m' & Hlast & ? & ? & ? & ?).
      exists h', m'. split_and!; try done.
      destruct items; [done|]. done.
Qed.

Lemma extends_refl text c : extends text c c.
Proof.
  unfold extends. split_and!; try done. exists []. by rewrite app_nil_r.
Qed.

Lemma extends_trans text c1 c2 c3 :
  extends text c1 c2 → extends text c2 c3 → extends text c1 c3.
Proof.
  intros (Hi1 & Hv1 & Hh1 & m1 & Hc1 & Hf1) (Hi2 & Hv2 & Hh2 & m2 & Hc2 & Hf2).
  unfold extends. split_and!; try congruence.
  exists (m1 ++ m2). split; [by rewrite Hc2, Hc1, app_assoc|].
  apply Forall_app. by split.
Qed.

Lemma fmap_insert_same {B} (f : Bot → B) (bs : list Bot) (i : nat) bot bot' :
  bs !! i = Some bot → f bot' = f bot → f <$> <[i := bot']> bs = f <$> bs.
Proof.
  intros Hi Hf. rewrite list_fmap_insert, Hf. apply list_insert_id.
  by rewrite list_lookup_fmap, Hi.
Qed.

(** The cases of one turn, by the result it ends with. *)
Lemma visit_inv text rc i c c' res :
  visit generate_chat_reply text rc i c = (c', res) →
  (res = Raise IndexError ∧ c' = c ∧ l_bots c !! i = None)
  ∨ ∃ bot,
      l_bots c !! i = Some bot
      ∧ l_values c' = use_bot bot (l_values c)
      ∧ l_calls c' = l_calls c ++ [(text, l_values c')]
      ∧ ((∃ e, res = Raise e ∧ l_bots c' = l_bots c
               ∧ (e = GeneratorFailure ∨ e = IndexError
                  ∨ quiet generate_chat_reply (text, l_values c')))
         ∨ (∃ row r,
              res = Ok () ∧ quiet generate_chat_reply (text, l_values c')
              ∧ l_bots c' = <[i := set_reply r bot]> (l_bots c)
              ∧ l_visible_history c' = l_visible_history c ++ [row]
              ∧ (productive generate_chat_reply (text, l_values c') →
                 row.2 = Some (reply_visible r).2
                 ∧ chatbot_value (l_widgets c') = l_visible_history c'))).
Proof.
  unfold visit, py_index.
  destruct (l_bots c !! i) as [bot|] eqn:Hbot; [|intros [= <- <-]; by left].
  destruct (consume _ _ _ _ _ _) as [w [[row hvar]|e]] eqn:Hcons.
  2:{ intros [= <- <-]. right. exists bot. split_and!; try done.
      left. exists e. apply consume_Raise in Hcons. naive_solver. }
  destruct (raises _) eqn:Hraise.
  { intros [= <- <-]. right. exists bot. split_and!; try done.
    left. exists GeneratorFailure. naive_solver. }
  destruct hvar as [h|].
  2:{ intros [= <- <-]. right. exists bot. split_and!; try done.
      left. exists UnboundLocalError. split_and!; try done. by right; right. }
  unfold py_last.
  destruct (last (visible h)) as [v|] eqn:Hv.
  2:{ intros [= <- <-]. right. exists bot. split_and!; try done.
      left. exists IndexError. naive_solver. }
  destruct (last (internal h)) as [n|] eqn:Hn.
  2:{ intros [= <- <-]. right. exists bot. split_and!; try done.
      left. exists IndexError. naive_solver. }
  intros [= <- <-]. right. exists bot. split_and!; try done.
  right. exists row, (mkReply v n). split_and!; try done.
  intros Hprod. unfold productive in Hprod. simpl in *.
  apply consume_Ok in Hcons as [(Hnil & _)|(h' & m & _ & [= <-] & Hm & ? & ?)];
    [done|].
  split; [congruence|done].
Qed.

Lemma visit_extends text rc i c c' res :
  visit generate_chat_reply text rc i c = (c', res) → extends text c c'.
Proof.
  intros [(_ & -> & _)|(bot & Hbot & Hval & Hcalls & Hres)]%visit_inv;
    [apply extends_refl|].
  assert (identifier <$> l_bots c' = identifier <$> l_bots c
          ∧ votes <$> l_bots c' = votes <$> l_bots c
          ∧ parameters <$> l_bots c' = parameters <$> l_bots c) as (? & ? & ?).
  { destruct Hres as [(e & _ & -> & _)|(row & r & _ & _ & -> & _)]; [done|].
    split_and!; by eapply fmap_insert_same. }
  unfold extends. split_and!; try done.
  exists [(text, l_values c')]. split; [done|]. by repeat constructor.
Qed.

Lemma visit_all_extends text rc order c c' res :
  visit_all generate_chat_reply text rc order c = (c', res) →
  extends text c c'.
Proof.
  revert rc c. induction order as [|i order IH]; intros rc c; simpl.
  - intros [= <- <-]. apply extends_refl.
  - destruct (visit _ _ _ _ _) as [c1 [[]|e]] eqn:Hvisit.
    + intros Hall. eapply extends_trans; [by eapply visit_extends|by eapply IH].
    + intros [= <- <-]. by eapply visit_extends.
Qed.

(** *** Presets without a history entry

    [interface_values.update(bot.parameters)] replaces the history only
    when the preset of the bot holds a [history] entry.  When no bot of the
    roster does, a round hands the history of the chat to every generator
    call and leaves it as it found it. *)

Lemma use_bot_history bot v :
  par_history (parameters bot) = None → history (use_bot bot v) = history v.
Proof. unfold use_bot. simpl. by intros ->. Qed.

Lemma no_history_entry_fmap bs bs' :
  parameters <$> bs' = parameters <$> bs →
  no_history_entry bs → no_history_entry bs'.
Proof.
  unfold no_history_entry. intros Heq Hbs.
  apply (proj1 (Forall_fmap parameters (λ p, par_history p = None) bs')).
  rewrite Heq.
  by apply (proj2 (Forall_fmap parameters (λ p, par_history p = None) bs)).
Qed.

Lemma share_history_no_entry owner h bs :
  no_history_entry bs → share_history owner h bs = bs.
Proof.
  unfold share_history, no_history_entry. intros Hbs.
  destruct owner as [j|]; [|done].
  apply list_eq. intros k. rewrite list_lookup_alter.
  destruct (decide (j = k)) as [->|]; simpl; [|done].
  destruct (bs !! k) as [bot|] eqn:Hk; simpl; [|done].
  rewrite Forall_lookup in Hbs. unfold own_history.
  by rewrite (Hbs k bot Hk).
Qed.

Lemma visit_history text rc i c c' res :
  visit generate_chat_reply text rc i c = (c', res) →
  no_history_entry (l_bots c) →
  history (l_values c') = history (l_values c)
  ∧ l_owner c' = l_owner c
  ∧ ∃ more, l_calls c' = l_calls c ++ more
            ∧ Forall (λ call, history call.2 = history (l_values c)) more.
Proof.
  unfold visit, py_index, no_history_entry. intros Hv Hbs.
  destruct (l_bots c !! i) as [bot|] eqn:Hbot.
  2:{ simplify_eq. split_and!; try done. exists []. by rewrite app_nil_r. }
  rewrite Forall_lookup in Hbs. pose proof (Hbs i bot Hbot) as Hnone.
  assert (owner_after bot i (l_owner c) = l_owner c) as Ho
    by (unfold owner_after; by rewrite Hnone).
  pose proof (use_bot_history bot (l_values c) Hnone) as Hh.
  assert (∃ vh hv w b,
    c' = mkLocals b (use_bot bot (l_values c))
           (owner_after bot i (l_owner c)) vh hv w
           (l_calls c ++ [(text, use_bot bot (l_values c))]))
    as (vh & hv & w & b & ->).
  { repeat case_match; simplify_eq; by eauto. }
  simpl. split_and!; try done.
  eexists. split; [done|]. by repeat constructor.
Qed.

Lemma visit_all_history text rc order c c' res :
  visit_all generate_chat_reply text rc order c = (c', res) →
  no_history_entry (l_bots c) →
  history (l_values c') = history (l_values c)
  ∧ l_owner c' = l_owner c
  ∧ ∃ more, l_calls c' = l_calls c ++ more
            ∧ Forall (λ call, history call.2 = history (l_values c)) more.
Proof.
  revert rc c. induction order as [|i order IH]; intros rc c; simpl.
  - intros [= <- <-] _. split_and!; try done. exists []. by rewrite app_nil_r.
  - destruct (visit _ _ _ _ _) as [c1 [[]|e]] eqn:Hvisit.
    + intros Hall Hbs.
      pose proof (visit_extends _ _ _ _ _ _ Hvisit) as (_ & _ & Hp & _).
      destruct (visit_history _ _ _ _ _ _ Hvisit Hbs)
        as (Hh1 & Ho1 & m1 & Hc1 & Hf1).
      destruct (IH _ _ Hall (no_history_entry_fmap _ _ Hp Hbs))
        as (Hh2 & Ho2 & m2 & Hc2 & Hf2).
      split_and!; [congruence|congruence|].
      exists (m1 ++ m2). split; [by rewrite Hc2, Hc1, app_assoc|].
      apply Forall_app. split; [done|].
      eapply Forall_impl; [done|]. simpl. intros call ?. congruence.
    + intros [= <- <-] Hbs. by eapply visit_history.
Qed.

Lemma consume_input rc shown items row hvar w :
  same_input w (consume rc shown items row hvar w).1.
Proof.
  revert row hvar w. induction items as [|h items IH]; intros row hvar w; simpl.
  - done.
  - destruct (py_last (visible h)); [|done].
    destruct (IH (if decide (rc = 1 ∧ a.1 ≠ "") then Some a.1 else row.1,
                  Some a.2) (Some h)
                (set_chatbot
                   (Some (shown ++ [(if decide (rc = 1 ∧ a.1 ≠ "")
                                     then Some a.1 else row.1, Some a.2)]))
                   (ClassesGenerating rc) w)) as [? ?].
    split; by etrans.
Qed.

Lemma visit_input text rc i c :
  same_input (l_widgets c)
    (l_widgets (visit generate_chat_reply text rc i c).1).
Proof.
  unfold visit. destruct (py_index _ _) as [bot|]; [|done].
  pose proof (consume_input rc (l_visible_history c)
                (yields (generate_chat_reply text (use_bot bot (l_values c))))
                (None, None) (l_history c) (l_widgets c)) as Hc.
  destruct (consume _ _ _ _ _ _) as [w [[row hvar]|e]]; [|done].
  destruct (raises _); [done|]. destruct hvar as [h|]; [|done].
  destruct (py_last (visible h)); [|done].
  by destruct (py_last (internal h)).
Qed.

Lemma visit_all_input text rc order c :
  same_input (l_widgets c)
    (l_widgets (visit_all generate_chat_reply text rc order c).1).
Proof.
  revert rc c. induction order as [|i order IH]; intros rc c; simpl; [done|].
  pose proof (visit_input text rc i c) as [? ?].
  destruct (visit _ _ _ _ _) as [c1 [[]|e]]; [|done].
  destruct (IH (S rc) c1) as [? ?]. split; by etrans.
Qed.

(** The generator calls of a round: when the loop ends, none of them
    raised and every bot of the order was called once; when it stops on
    an exception, either no call raised or the exception is the failure
    of the generator or an [IndexError]. *)
Lemma visit_all_calls text rc order c c' res :
  visit_all generate_chat_reply text rc order c = (c', res) →
  ∃ more,
    l_calls c' = l_calls c ++ more
    ∧ (length more ≤ length order)%nat
    ∧ match res with
      | Ok _ => Forall (quiet generate_chat_reply) more ∧ length more = length order
      | Raise e =>
          Forall (quiet generate_chat_reply) more ∨ e = GeneratorFailure ∨ e = IndexError
      end.
Proof.
  revert rc c. induction order as [|i order IH]; intros rc c; simpl.
  - intros [= <- <-]. exists []. by rewrite app_nil_r.
  - destruct (visit _ _ _ _ _) as [c1 [[]|e]] eqn:Hvisit.
    + intros (more & Hmore & Hlen & Hres)%IH.
      apply visit_inv in Hvisit
        as [(? & _)|(bot & _ & _ & Hcalls & [(e & ? & _)|Hok])]; try done.
      destruct Hok as (row & r & _ & Hq & _).
      exists ((text, l_values c1) :: more).
      split; [by rewrite Hmore, Hcalls, <-app_assoc|].
      split; [simpl; lia|].
      destruct res as [[]|e].
      * destruct Hres as [? ?]. split; [by constructor|simpl; lia].
      * destruct Hres as [?|?]; [left; by constructor|by right].
    + intros [= <- <-].
      apply visit_inv in Hvisit
        as [([= ->] & -> & _)|(bot & _ & _ & Hcalls & Hres)].
      { exists []. rewrite app_nil_r. split_and!; [done|simpl; lia|by left]. }
      destruct Hres as [(e' & [= <-] & _ & He)|(? & ? & ? & _)]; [|done].
      exists [(text, l_values c1)]. split_and!; [done|simpl; lia|].
      destruct He as [?|[?|?]]; [by right; left|by right; right|].
      left. by repeat constructor.
Qed.

(** The calls of a loop, position by position, however the loop ends:
    the call at position [k] is made for the bot that the order names at
    [k], with the values of the call before it (those the loop starts
    with, for the first call) changed for that bot; every call but the
    last one returned without raising; the dictionary is left as the
    last call received it. *)
Lemma visit_all_asked text rc order c c' res :
  visit_all generate_chat_reply text rc order c = (c', res) →
  ∃ more,
    l_calls c' = l_calls c ++ more
    ∧ (length more ≤ length order)%nat
    ∧ l_values c' = default (l_values c) (snd <$> last more)
    ∧ ∀ k call,
        more !! k = Some call →
        (S k < length more → quiet generate_chat_reply call)
        ∧ ∃ i bot,
            order !! k = Some i ∧ l_bots c !! i = Some bot
            ∧ call
              = (text,
                 use_bot bot
                   match k with
                   | 0 => l_values c
                   | S k' => default (l_values c) (snd <$> more !! k')
                   end).
Proof.
  revert rc c. induction order as [|i order IH]; intros rc c; simpl.
  - intros [= <- <-]. exists []. rewrite app_nil_r. by split_and!.
  - destruct (visit _ _ _ _ _) as [c1 [[]|e]] eqn:Hvisit.
    + intros (more & Hmore & Hlen & Hlast & Htrace)%IH.
      apply visit_inv in Hvisit
        as [(? & _)|(bot & Hbot & Hval & Hcalls & [(e & ? & _)|Hok])];
        try done.
      destruct Hok as (row & r & _ & Hq & Hbots & _).
      exists ((text, l_values c1) :: more). split_and!.
      * by rewrite Hmore, Hcalls, <-app_assoc.
      * simpl. lia.
      * rewrite Hlast. destruct more as [|call more]; [done|].
        rewrite last_cons_cons.
        destruct (last (call :: more)) eqn:Hl; [done|].
        by apply last_None in Hl.
      * intros [|k] call Hk; simplify_eq/=.
        { split; [done|]. exists i, bot. by rewrite Hval. }
        destruct (Htrace k call Hk) as (Hquiet & i' & bot' & Hi' & Hbot' & ->).
        split; [intros ?; apply Hquiet; lia|].
        assert (∃ bot0, l_bots c !! i' = Some bot0
                        ∧ ∀ v, use_bot bot' v = use_bot bot0 v)
          as (bot0 & Hbot0 & Huse).
        { rewrite Hbots in Hbot'. destruct (decide (i = i')) as [<-|Hne].
          - rewrite list_lookup_insert_eq in Hbot'
              by by eapply lookup_lt_Some.
            simplify_eq. by exists bot.
          - rewrite list_lookup_insert_ne in Hbot' by done. by exists bot'. }
        exists i', bot0. split_and!; try done. rewrite Huse. do 2 f_equal.
        destruct k as [|k]; [done|]. simpl.
        apply lookup_lt_Some in Hk.
        destruct (lookup_lt_is_Some_2 more k) as [prev Hprev]; [lia|].
        by rewrite Hprev.
    + intros [= <- <-].
      apply visit_inv in Hvisit
        as [(_ & -> & _)|(bot & Hbot & Hval & Hcalls & _)].
      { exists []. rewrite app_nil_r. split_and!; [done|simpl; lia|done|done]. }
      exists [(text, l_values c1)]. split_and!; [done|simpl; lia|done|].
      intros [|k] call Hk; simplify_eq/=.
      split; [lia|]. exists i, bot. by rewrite Hval.
Qed.

Lemma visit_keeps_reply text rc i c c' res j :
  visit generate_chat_reply text rc i c = (c', res) →
  has_reply (l_bots c) j → has_reply (l_bots c') j.
Proof.
  intros [(_ & -> & _)|(bot & Hbot & _ & _ & Hres)]%visit_inv Hj; [done|].
  destruct Hres as [(e & _ & -> & _)|(row & r & _ & _ & -> & _)]; [done|].
  destruct (decide (i = j)) as [->|Hne].
  - exists (set_reply r bot), r. split; [|done].
    apply list_lookup_insert_eq. by eapply lookup_lt_Some.
  - unfold has_reply. by rewrite list_lookup_insert_ne.
Qed.

Lemma visit_all_keeps_reply text rc order c c' res j :
  visit_all generate_chat_reply text rc order c = (c', res) →
  has_reply (l_bots c) j → has_reply (l_bots c') j.
Proof.
  revert rc c. induction order as [|i order IH]; intros rc c; simpl.
  - by intros [= <- <-].
  - destruct (visit _ _ _ _ _) as [c1 [[]|e]] eqn:Hvisit.
    + intros Hall Hj. eapply IH; [done|]. by eapply visit_keeps_reply.
    + intros [= <- <-]. by eapply visit_keeps_reply.
Qed.

(** When the loop ends, every bot of the order holds a reply. *)
Lemma visit_all_replies text rc order c c' :
  visit_all generate_chat_reply text rc order c = (c', Ok ()) →
  Forall (has_reply (l_bots c')) order.
Proof.
  revert rc c. induction order as [|i order IH]; intros rc c; simpl.
  - by constructor.
  - destruct (visit _ _ _ _ _) as [c1 [[]|e]] eqn:Hvisit; [|done].
    intros Hall. constructor; [|by eapply IH].
    eapply visit_all_keeps_reply; [done|].
    apply visit_inv in Hvisit
      as [(? & _)|(bot & Hbot & _ & _ & [(e & ? & _)|Hok])]; try done.
    destruct Hok as (row & r & _ & _ & -> & _).
    exists (set_reply r bot), r. split; [|done].
    apply list_lookup_insert_eq. by eapply lookup_lt_Some.
Qed.

(** When the loop ends over an order without repetition and every call
    yielded something, [visible_history] has grown by one row per bot,
    in the order of the visit, and the chatbot shows it. *)
Lemma visit_all_display text rc order c c' :
  visit_all generate_chat_reply text rc order c = (c', Ok ()) →
  NoDup order →
  Forall (productive generate_chat_reply) (l_calls c') →
  ∃ rows,
    l_visible_history c' = l_visible_history c ++ rows
    ∧ Forall2 (shows (l_bots c')) rows order
    ∧ (∀ j, j ∉ order → l_bots c' !! j = l_bots c !! j)
    ∧ (order ≠ [] → chatbot_value (l_widgets c') = l_visible_history c').
Proof.
  revert rc c. induction order as [|i order IH]; intros rc c; simpl.
  - intros [= <-] _ _. exists []. by rewrite app_nil_r.
  - destruct (visit _ _ _ _ _) as [c1 [[]|e]] eqn:Hvisit; [|done].
    intros Hall [Hi Hnd]%NoDup_cons Hprod.
    destruct (IH _ _ Hall Hnd Hprod) as (rows & Hvh & Hrows & Hframe & Hshown).
    pose proof (visit_all_extends _ _ _ _ _ _ Hall) as (_ & _ & _ & more & Hmore & _).
    apply visit_inv in Hvisit
      as [(? & _)|(bot & Hbot & _ & Hcalls & [(e & ? & _)|Hok])]; try done.
    destruct Hok as (row & r & _ & _ & Hbots & Hrow & Hcall).
    destruct Hcall as [Hcell Hvalue].
    { rewrite Hmore, Hcalls in Hprod.
      apply Forall_app in Hprod as [Hprod _].
      apply Forall_app in Hprod as [_ Hprod]. by inv Hprod. }
    exists (row :: rows). split_and!.
    + by rewrite Hvh, Hrow, <-app_assoc.
    + constructor; [|done]. exists (set_reply r bot), r.
      split_and!; try done.
      rewrite Hframe, Hbots by done.
      apply list_lookup_insert_eq. by eapply lookup_lt_Some.
    + intros j [Hne Hj]%not_elem_of_cons.
      rewrite Hframe, Hbots by done. by rewrite list_lookup_insert_ne.
    + intros _. destruct order as [|i' order]; [|by apply Hshown].
      simpl in Hall. by simplify_eq.
Qed.

(** *** [do_send] as a whole *)

Lemma do_send_preserves text draw st w :
  let s := do_send generate_chat_reply text draw st w in
  identifier <$> bots (sent_state s) = identifier <$> bots st
  ∧ votes <$> bots (sent_state s) = votes <$> bots st
  ∧ parameters <$> bots (sent_state s) = parameters <$> bots st
  ∧ bot_order (sent_state s) = shuffle draw (bot_order st)
  ∧ Forall (λ call, call.1 = text) (sent_calls s)
  ∧ message_interactive (sent_widgets s) = false
  ∧ send_interactive (sent_widgets s) = false.
Proof.
  unfold do_send.
  pose proof (visit_all_input text 1 (shuffle draw (bot_order st))
    (mkLocals (bots st) (interface_values st) (history_owner st)
       (process_history (history (interface_values st))) None
       (lock_input w) [])) as [Hm Hs].
  destruct (visit_all _ _ _ _ _) as [c res] eqn:Hall.
  apply visit_all_extends in Hall as (Hi & Hv & Hh & more & Hmore & Hcalls).
  simpl in *. subst.
  destruct res as [[]|e]; [destruct (shuffle draw (bot_order st))|];
    simpl; by rewrite ?Hmore.
Qed.

(** With no history entry in a preset, a round leaves the history of the
    chat alone and hands it to every generator call. *)
Lemma do_send_history text draw st w :
  let s := do_send generate_chat_reply text draw st w in
  no_history_entry (bots st) →
  history (interface_values (sent_state s)) = history (interface_values st)
  ∧ history_owner (sent_state s) = history_owner st
  ∧ Forall (λ call, history call.2 = history (interface_values st))
      (sent_calls s).
Proof.
  unfold do_send. intros Hbs.
  destruct (visit_all _ _ _ _ _) as [c res] eqn:Hall.
  apply visit_all_history in Hall as (Hh & Ho & more & Hmore & Hcalls);
    [|done].
  simpl in *. subst.
  destruct res as [[]|e]; [destruct (shuffle draw (bot_order st))|];
    simpl; by rewrite ?Hmore.
Qed.

Lemma do_send_length text draw st w :
  length (bots (sent_state (do_send generate_chat_reply text draw st w)))
  = length (bots st).
Proof.
  destruct (do_send_preserves text draw st w) as (Hi & _).
  by rewrite <-(length_fmap identifier), Hi, length_fmap.
Qed.

Lemma do_send_well_formed text draw st w :
  well_formed st →
  well_formed (sent_state (do_send generate_chat_reply text draw st w)).
Proof.
  unfold well_formed. intros Hwf. rewrite do_send_length.
  destruct (do_send_preserves text draw st w) as (_ & _ & _ & -> & _).
  by rewrite shuffle_Permutation.
Qed.

(** How [do_send] ends.  When it returns, the state waits for a vote and
    every bot of the order holds a reply.  When it raises in the loop,
    the state stays in [GENERATING].  With an empty order it raises at
    its last [yield], where [reply_count] was never bound. *)
Lemma do_send_result text draw st w :
  let s := do_send generate_chat_reply text draw st w in
  match sent_result s with
  | Ok o =>
      o = RepliesReady
      ∧ step (sent_state s) = WAITING_FOR_VOTE
      ∧ bot_order (sent_state s) ≠ []
      ∧ Forall (quiet generate_chat_reply) (sent_calls s)
      ∧ length (sent_calls s) = length (bot_order (sent_state s))
      ∧ Forall (has_reply (bots (sent_state s))) (bot_order (sent_state s))
  | Raise e =>
      (step (sent_state s) = GENERATING
       ∧ (Forall (quiet generate_chat_reply) (sent_calls s)
          ∨ e = GeneratorFailure ∨ e = IndexError))
      ∨ (e = UnboundLocalError ∧ bot_order (sent_state s) = []
         ∧ step (sent_state s) = WAITING_FOR_VOTE ∧ sent_calls s = [])
  end.
Proof.
  unfold do_send.
  destruct (visit_all _ _ _ _ _) as [c res] eqn:Hall.
  pose proof (visit_all_calls _ _ _ _ _ _ Hall) as (more & Hmore & Hlen & Hres).
  simpl in Hmore. subst more.
  destruct res as [[]|e]; [|by left].
  apply visit_all_replies in Hall.
  destruct Hres as [Hq Hl].
  destruct (shuffle draw (bot_order st)) as [|i order] eqn:Horder; simpl.
  - right. split_and!; try done. by destruct (l_calls c).
  - by split_and!.
Qed.

(** The rows the chatbot shows when [do_send] returns. *)
Lemma do_send_display text draw st w :
  let s := do_send generate_chat_reply text draw st w in
  sent_result s = Ok RepliesReady →
  NoDup (bot_order st) →
  Forall (productive generate_chat_reply) (sent_calls s) →
  ∃ rows,
    chatbot_value (sent_widgets s)
    = process_history (history (interface_values st)) ++ rows
    ∧ Forall2 (shows (bots (sent_state s))) rows (bot_order (sent_state s)).
Proof.
  unfold do_send.
  destruct (visit_all _ _ _ _ _) as [c res] eqn:Hall.
  destruct res as [[]|e]; [|done].
  destruct (shuffle draw (bot_order st)) as [|i order] eqn:Horder; [done|].
  simpl. intros _ Hnd Hprod.
  assert (NoDup (i :: order)) as Hnd'.
  { rewrite <-Horder. by rewrite shuffle_Permutation. }
  destruct (visit_all_display _ _ _ _ _ Hall Hnd' Hprod)
    as (rows & Hvh & Hrows & _ & Hshown).
  exists rows. split; [|done]. rewrite Hshown by done. by rewrite Hvh.
Qed.

(** Every bot of the order is asked at most once. *)
Lemma do_send_calls_length text draw st w :
  (length (sent_calls (do_send generate_chat_reply text draw st w))
   ≤ length (bot_order st))%nat.
Proof.
  unfold do_send.
  destruct (visit_all _ _ _ _ _) as [c res] eqn:Hall.
  apply visit_all_calls in Hall as (more & Hmore & Hlen & _).
  simpl in Hmore. subst more.
  rewrite (Permutation_length (shuffle_Permutation draw (bot_order st))) in Hlen.
  destruct res as [[]|e]; [destruct (shuffle draw (bot_order st))|]; done.
Qed.

(** The calls of a round, position by position, however it ends. *)
Lemma do_send_asked text draw st w :
  let s := do_send generate_chat_reply text draw st w in
  interface_values (sent_state s)
  = default (interface_values st) (snd <$> last (sent_calls s))
  ∧ ∀ k call,
      sent_calls s !! k = Some call →
      (S k < length (sent_calls s) → quiet generate_chat_reply call)
      ∧ ∃ i bot,
          shuffle draw (bot_order st) !! k = Some i
          ∧ bots st !! i = Some bot
          ∧ call
            = (text,
               use_bot bot
                 match k with
                 | 0 => interface_values st
                 | S k' =>
                     default (interface_values st)
                       (snd <$> sent_calls s !! k')
                 end).
Proof.
  unfold do_send.
  destruct (visit_all _ _ _ _ _) as [c res] eqn:Hall.
  apply visit_all_asked in Hall as (more & Hmore & _ & Hlast & Htrace).
  simpl in Hmore, Hlast, Htrace. subst more.
  destruct res as [[]|e]; [destruct (shuffle draw (bot_order st))|];
    simpl; by split.
Qed.

(** The history a round hands to a call, and the one it leaves, is the
    history of the chat or the history entry of some preset. *)
Lemma do_send_history_from (P : History → Prop) text draw st w :
  let s := do_send generate_chat_reply text draw st w in
  P (history (interface_values st)) →
  Forall (λ p, ∀ h, par_history p = Some h → P h) (parameters <$> bots st) →
  P (history (interface_values (sent_state s)))
  ∧ Forall (λ call, P (history call.2)) (sent_calls s).
Proof.
  intros s Hst Hbots.
  destruct (do_send_asked text draw st w) as (Hlast & Htrace).
  fold s in Hlast, Htrace.
  assert (∀ k call, sent_calls s !! k = Some call → P (history call.2))
    as Hcalls.
  { induction k as [|k IH]; intros call Hk;
      destruct (Htrace _ call Hk) as (_ & i & bot & _ & Hbot & ->); simpl.
    - rewrite Forall_fmap, Forall_lookup in Hbots.
      specialize (Hbots i bot Hbot). simpl in Hbots.
      destruct (par_history (parameters bot)); simpl; auto.
    - rewrite Forall_fmap, Forall_lookup in Hbots.
      specialize (Hbots i bot Hbot). simpl in Hbots.
      destruct (par_history (parameters bot)); simpl; [auto|].
      destruct (lookup_lt_is_Some_2 (sent_calls s) k) as [prev Hprev];
        [apply lookup_lt_Some in Hk; lia|].
      rewrite Hprev. simpl. by apply IH. }
  split; [|by apply Forall_lookup].
  rewrite Hlast. destruct (last (sent_calls s)) as [call|] eqn:Hl; [|done].
  simpl. rewrite last_lookup in Hl. by eapply Hcalls.
Qed.

(** [do_send] never looks at the step it starts from. *)
Lemma do_send_any_step text draw st w s0 :
  do_send generate_chat_reply text draw (set_step s0 st) w
  = do_send generate_chat_reply text draw st w.
Proof. done. Qed.

End Round.

(** ** Sequences of events *)

Section Sessions.

Variable start_new_chat : InterfaceValues → History.
Variable load_preset : string → Parameters.
Variable generate_chat_reply : string → InterfaceValues → Stream.

Lemma enabled_bots_votes slots :
  total_votes (enabled_bots load_preset slots) = 0.
Proof.
  unfold enabled_bots, total_votes.
  induction (filter _ slots) as [|s l IH]; [done|]. by rewrite !fmap_cons.
Qed.

Lemma accepted_well_formed st i bot r :
  well_formed st → well_formed (accepted st i bot r).
Proof.
  unfold well_formed. simpl. by rewrite length_share_history, length_insert.
Qed.

Lemma dispatch_tallied ev app n :
  tallied app n →
  tallied (dispatch start_new_chat load_preset generate_chat_reply ev app).1
    (rounds_after ev
       (dispatch start_new_chat load_preset generate_chat_reply ev app).2 n).
Proof.
  unfold tallied. intros Hinv. destruct ev as [host data| |text draw|index sender].
  - simpl. split; [by unfold well_formed|]. apply enabled_bots_votes.
  - simpl. done.
  - simpl. destruct (session app) as [st|] eqn:Hst; simpl; [|by rewrite Hst].
    destruct Hinv as [Hwf Hn].
    split; [by apply do_send_well_formed|].
    destruct (do_send_preserves generate_chat_reply text draw st (widgets app))
      as (_ & Hv & _).
    pose proof (do_send_result generate_chat_reply text draw st (widgets app))
      as Hres.
    simpl in Hres.
    destruct (sent_result _) as [o|e].
    + destruct Hres as (-> & _). unfold total_votes. by rewrite Hv.
    + unfold total_votes. by rewrite Hv.
  - simpl. destruct (session app) as [st|] eqn:Hst; simpl; [|by rewrite Hst].
    destruct Hinv as [Hwf Hn].
    destruct (do_select_cases index sender st (widgets app))
      as [->|[->|[->|(k & i & bot & r & rk & _ & _ & _ & _ & Hbot & _ & _ & ->)]]];
      simpl; try done.
    split; [by apply accepted_well_formed|].
    rewrite <-Hn. exact (total_votes_accepted st i bot r Hbot).
Qed.

Lemma run_tallied evs app n :
  tallied app n →
  tallied (run start_new_chat load_preset generate_chat_reply evs app n).1
    (run start_new_chat load_preset generate_chat_reply evs app n).2.
Proof.
  revert app n. induction evs as [|ev evs IH]; intros app n Hinv; simpl; [done|].
  pose proof (dispatch_tallied ev app n Hinv) as Hstep.
  destruct (dispatch _ _ _ ev app) as [app' r]. by apply IH.
Qed.

End Sessions.

(** * The claims *)

(** C1. In a state that waits for a vote, a click on the [k]-th pending
    reply, whose bot holds a reply, adds exactly one to the vote counter
    of that bot and leaves the other counters alone, appends one exchange
    to both sides of the shared history, and puts the step back to
    [WAITING_FOR_MESSAGE].  The visible side gets the user message of the
    reply and a bot cell that reads
    [<div class=QUOTEchatbot-clinic-bot-identifierQUOTE>], the escaped
    identifier of the bot, [</div>], a space and the bot message, where
    QUOTE is the double quotation mark, the character of code 34; the
    internal side gets the internal exchange of the reply as it is.
    Hence, after any sequence of events from the initial application, the
    votes of the roster add up to the number of votes counted since the
    chat started. *)
Theorem accept_reply_counts_one_vote :
  (∀ (st : State) (w : Widgets) (k i : nat) (bot : Bot) (r : Reply),
     step st = WAITING_FOR_VOTE →
     bot_order st !! k = Some i →
     bots st !! i = Some bot →
     reply bot = Some r →
     ∃ st' w',
       do_select (pending_index st k) 1 st w = (st', w', Ok VoteAccepted)
       ∧ votes <$> bots st' = <[i := S (votes bot)]> (votes <$> bots st)
       ∧ identifier <$> bots st' = identifier <$> bots st
       ∧ visible (history (interface_values st'))
         = visible (history (interface_values st))
           ++ [((reply_visible r).1,
                "<div class="
                +:+ String "034"%char
                      ("chatbot-clinic-bot-identifier"
                       +:+ String "034"%char
                             (">" +:+ html_escape (identifier bot)
                              +:+ "</div> " +:+ (reply_visible r).2)))]
       ∧ internal (history (interface_values st'))
         = internal (history (interface_values st)) ++ [reply_internal r]
       ∧ step st' = WAITING_FOR_MESSAGE)
  ∧ (∀ start_new_chat load_preset generate_chat_reply (evs : list Event),
       let result :=
         run start_new_chat load_preset generate_chat_reply evs initial_app 0 in
       match session result.1 with
       | Some st => total_votes (bots st) = result.2
       | None => result.2 = 0
       end).
Proof.
  split.
  - intros st w k i bot r Hs Hk Hbot Hr.
    destruct (do_select_accept st w k i bot r Hs Hk Hbot Hr) as (rk & _ & ->).
    eexists _, _. split; [done|]. simpl. split_and!; try done.
    + rewrite (fmap_share_history votes) by apply own_history_votes.
      by rewrite list_fmap_insert.
    + rewrite (fmap_share_history identifier) by apply own_history_identifier.
      by eapply fmap_insert_vote.
  - intros snc lp gen evs. simpl.
    pose proof (run_tallied snc lp gen evs initial_app 0 eq_refl) as Hrun.
    unfold tallied in Hrun. destruct (session _); [by destruct Hrun|done].
Qed.

(** The vote for B, the first pending reply of the chat of three bots:
    the history gets the exchange of ["hi"] with the tagged ["replyb"]. *)
Lemma accept_reply_counts_one_vote_witness :
  step Scenario.waiting = WAITING_FOR_VOTE
  ∧ bot_order Scenario.waiting !! 0 = Some 1
  ∧ bots Scenario.waiting !! 1 = Some Scenario.bot_B
  ∧ reply Scenario.bot_B = Some Scenario.reply_B
  ∧ ∃ st' w',
      do_select 1 1 Scenario.waiting Scenario.waiting_widgets
      = (st', w', Ok VoteAccepted)
      ∧ votes <$> bots st' = [0; 1; 0]
      ∧ identifier <$> bots st' = ["A"; "B"; "C"]
      ∧ visible (history (interface_values st'))
        = [("", "Hello");
           ("hi",
            "<div class="
            +:+ String "034"%char
                  ("chatbot-clinic-bot-identifier"
                   +:+ String "034"%char ">B</div> replyb"))]
      ∧ internal (history (interface_values st'))
        = [("", "Hello"); ("hi", "replyb")]
      ∧ step st' = WAITING_FOR_MESSAGE.
Proof.
  assert (step Scenario.waiting = WAITING_FOR_VOTE) as H1
    by (vm_compute; reflexivity).
  assert (bot_order Scenario.waiting !! 0 = Some 1) as H2
    by (vm_compute; reflexivity).
  assert (bots Scenario.waiting !! 1 = Some Scenario.bot_B) as H3
    by (vm_compute; reflexivity).
  assert (reply Scenario.bot_B = Some Scenario.reply_B) as H4
    by reflexivity.
  split_and!; try assumption.
  exact (proj1 accept_reply_counts_one_vote Scenario.waiting
           Scenario.waiting_widgets 0 1 Scenario.bot_B Scenario.reply_B
           H1 H2 H3 H4).
Defined.

(** C2 (as the code has it).  A click in any step other than
    [WAITING_FOR_VOTE] is ignored: [do_select] returns normally, and the
    state and the widgets are what they were.  [do_send] has no check of
    the step: it runs the same from every step.  What keeps a message
    from being sent out of turn is the first [yield] of [do_send], which
    disables the message box and the send button; a click that counts no
    vote leaves the widgets as they are. *)
Theorem wrong_turn_is_ignored_not_raised :
  (∀ (index sender : Z) (st : State) (w : Widgets),
     step st ≠ WAITING_FOR_VOTE →
     do_select index sender st w = (st, w, Ok ClickIgnored))
  ∧ (∀ generate_chat_reply text draw (st : State) (w : Widgets) (s0 : Step),
       do_send generate_chat_reply text draw (set_step s0 st) w
       = do_send generate_chat_reply text draw st w)
  ∧ (∀ generate_chat_reply text draw (st : State) (w : Widgets),
       message_interactive
         (sent_widgets (do_send generate_chat_reply text draw st w)) = false
       ∧ send_interactive
           (sent_widgets (do_send generate_chat_reply text draw st w)) = false)
  ∧ (∀ (index sender : Z) (st : State) (w : Widgets),
       (do_select index sender st w).2 = Ok VoteAccepted
       ∨ (do_select index sender st w).1.2 = w).
Proof.
  split_and!.
  - intros index sender st w Hs. apply do_select_ignored. tauto.
  - intros. apply do_send_any_step.
  - intros gen text draw st w.
    by destruct (do_send_preserves gen text draw st w)
      as (_ & _ & _ & _ & _ & ? & ?).
  - intros index sender st w.
    destruct (do_select_cases index sender st w)
      as [->|[->|[->|(k & i & bot & r & rk & _ & _ & _ & _ & _ & _ & _ & ->)]]];
      auto.
Qed.

(** A click right after the start of the chat of three bots. *)
Lemma wrong_turn_is_ignored_not_raised_witness :
  step Scenario.started ≠ WAITING_FOR_VOTE
  ∧ do_select 1 1 Scenario.started Scenario.started_widgets
    = (Scenario.started, Scenario.started_widgets, Ok ClickIgnored).
Proof.
  assert (step Scenario.started ≠ WAITING_FOR_VOTE) as H1
    by (vm_compute; discriminate).
  split; [assumption|].
  exact (proj1 wrong_turn_is_ignored_not_raised 1%Z 1%Z Scenario.started
           Scenario.started_widgets H1).
Defined.

(** C2, the claim as stated, fails: right after the start a click is
    answered without any error, and a message sent while the chat waits
    for a vote starts a new generation round over all three bots. *)
Lemma wrong_turn_not_rejected :
  (do_select 1 1 Scenario.started Scenario.started_widgets).2
  = Ok ClickIgnored
  ∧ step Scenario.waiting = WAITING_FOR_VOTE
  ∧ sent_result
      (do_send Scenario.stub_generate "again" Scenario.first_slot
         Scenario.waiting Scenario.waiting_widgets) = Ok RepliesReady
  ∧ length
      (sent_calls
         (do_send Scenario.stub_generate "again" Scenario.first_slot
            Scenario.waiting Scenario.waiting_widgets)) = 3.
Proof. vm_compute. done. Qed.

(** C3 (as the code has it).  In a state that waits for a vote, a click
    that names no pending reply (a click on the user side, or on the bot
    side above the first pending reply or past the last one) leaves the
    state and the widgets untouched.  Only the click on the bot side at
    or past the position after the last pending reply raises, and what
    it raises is the [IndexError] of the lookup in [bot_order]; every
    other such click is ignored without any error. *)
Theorem select_without_pending_reply :
  ∀ (st : State) (w : Widgets) (index sender : Z),
    step st = WAITING_FOR_VOTE →
    (sender ≠ 1%Z
     ∨ (index < Z.of_nat (length (visible (history (interface_values st)))))%Z
     ∨ (Z.of_nat (length (visible (history (interface_values st)))
                  + length (bot_order st)) ≤ index)%Z) →
    do_select index sender st w
    = (st, w,
       if decide (sender = 1%Z
                  ∧ (Z.of_nat
                       (length (visible (history (interface_values st)))
                        + length (bot_order st)) ≤ index)%Z)
       then Raise IndexError
       else Ok ClickIgnored).
Proof.
  intros st w index sender Hs Hcase.
  destruct (decide _) as [[-> Hi]|Hn].
  - destruct (do_select_guarded index st w Hs) as (k & -> & _); [lia|].
    apply do_select_out_of_range; [done|]. unfold pending_index in Hi. lia.
  - apply do_select_ignored. intros (_ & -> & Hge).
    destruct Hcase as [?|[?|?]]; [done|lia|]. apply Hn. by split.
Qed.

(** A click far below the three pending replies raises; a click on the
    bot cell of the greeting is ignored. *)
Lemma select_without_pending_reply_witness :
  (step Scenario.waiting = WAITING_FOR_VOTE
   ∧ do_select 7 1 Scenario.waiting Scenario.waiting_widgets
     = (Scenario.waiting, Scenario.waiting_widgets, Raise IndexError))
  ∧ do_select 0 1 Scenario.waiting Scenario.waiting_widgets
    = (Scenario.waiting, Scenario.waiting_widgets, Ok ClickIgnored).
Proof.
  assert (step Scenario.waiting = WAITING_FOR_VOTE) as H1
    by (vm_compute; reflexivity).
  assert (Z.of_nat (length (visible (history (interface_values Scenario.waiting)))
                    + length (bot_order Scenario.waiting)) ≤ 7)%Z as H2
    by (vm_compute; discriminate).
  assert (0 < Z.of_nat
                (length (visible (history (interface_values Scenario.waiting)))))%Z
    as H3 by (vm_compute; reflexivity).
  split; [split; [assumption|]|].
  - exact (select_without_pending_reply Scenario.waiting
             Scenario.waiting_widgets 7%Z 1%Z H1 (or_intror (or_intror H2))).
  - exact (select_without_pending_reply Scenario.waiting
             Scenario.waiting_widgets 0%Z 1%Z H1 (or_intror (or_introl H3))).
Defined.

(** C3, the claim as stated, fails: while the three replies to ["hi"]
    wait for the vote, a click on the bot cell of the greeting and a
    click on the user side of a pending row name no pending reply, and
    both are answered without any error. *)
Lemma select_without_pending_reply_not_rejected :
  step Scenario.waiting = WAITING_FOR_VOTE
  ∧ length (visible (history (interface_values Scenario.waiting))) = 1
  ∧ length (bot_order Scenario.waiting) = 3
  ∧ do_select 0 1 Scenario.waiting Scenario.waiting_widgets
    = (Scenario.waiting, Scenario.waiting_widgets, Ok ClickIgnored)
  ∧ do_select 2 0 Scenario.waiting Scenario.waiting_widgets
    = (Scenario.waiting, Scenario.waiting_widgets, Ok ClickIgnored).
Proof. vm_compute. done. Qed.

(** C4 (as the code has it).  [do_start_chat] validates nothing: for
    every configuration the start succeeds, the step becomes
    [WAITING_FOR_MESSAGE], and the roster holds the enabled slots, in slot
    order, each with no vote and no reply; with no slot enabled the
    roster is empty. *)
Theorem start_chat_never_fails :
  ∀ start_new_chat load_preset generate_chat_reply
    (host_values : InterfaceValues) (data : StartData) (app : App),
    ∃ st w,
      dispatch start_new_chat load_preset generate_chat_reply
        (StartChatClick host_values data) app = (mkApp (Some st) w, Ok Started)
      ∧ step st = WAITING_FOR_MESSAGE
      ∧ identifier <$> bots st
        = slot_identifier <$> filter (λ s, slot_enabled s = true) (data_slots data)
      ∧ Forall (λ bot, votes bot = 0 ∧ reply bot = None) (bots st)
      ∧ bot_order st = seq 0 (length (bots st))
      ∧ history (interface_values st)
        = start_new_chat
            (mkInterfaceValues (data_user_name data) (data_bot_name data)
               (data_greeting data) (history host_values)
               (iv_context host_values) (iv_rest host_values)).
Proof.
  intros snc lp gen host data app. eexists _, _. split; [done|]. simpl.
  split_and!; try done.
  - unfold enabled_bots. by rewrite <-list_fmap_compose.
  - unfold enabled_bots. apply Forall_fmap, Forall_forall. done.
Qed.

(** C4, the claim as stated, fails: with no bot enabled the start
    succeeds and leaves a chat with an empty roster. *)
Lemma start_without_bots_succeeds :
  ∃ st w,
    dispatch Scenario.stub_start Scenario.stub_preset Scenario.stub_generate
      (StartChatClick Scenario.host_values Scenario.no_bots) initial_app
    = (mkApp (Some st) w, Ok Started)
    ∧ step st = WAITING_FOR_MESSAGE
    ∧ bots st = [].
Proof. eexists _, _. split; [reflexivity|]. done. Qed.

(** C5 (as the code has it).  When a generator call of the round raises,
    [do_send] stops on an exception that reaches its caller: the failure
    of the generator, or the [IndexError] of an item it yielded before.
    The calls follow the shuffled order, the call at position [k] being
    the one for the bot at position [k], made with the message of the
    round and the context of that bot (that of its preset, if the preset
    holds one); a call that raises is the last call of the round: it is
    not repeated, and the bots after it are not asked.  The step stays
    [GENERATING], it does not go back to [WAITING_FOR_MESSAGE]; no vote
    can be counted in that state, every click is ignored.  The votes are
    what they were before the round, and so is the shared history when
    no preset holds a history entry. *)
Theorem generator_failure_aborts_round :
  ∀ generate_chat_reply text draw (st : State) (w : Widgets),
    let s := do_send generate_chat_reply text draw st w in
    Exists (λ call, raises (generate_chat_reply call.1 call.2) = true)
      (sent_calls s) →
    (sent_result s = Raise GeneratorFailure
     ∨ sent_result s = Raise IndexError)
    ∧ step (sent_state s) = GENERATING
    ∧ bot_order (sent_state s) = shuffle draw (bot_order st)
    ∧ (length (sent_calls s) ≤ length (bot_order (sent_state s)))%nat
    ∧ (∀ k call,
         sent_calls s !! k = Some call →
         (raises (generate_chat_reply call.1 call.2) = true →
          S k = length (sent_calls s))
         ∧ ∃ i bot,
             bot_order (sent_state s) !! k = Some i
             ∧ bots st !! i = Some bot
             ∧ call.1 = text
             ∧ iv_context call.2
               = default (bot_context bot) (par_context (parameters bot)))
    ∧ votes <$> bots (sent_state s) = votes <$> bots st
    ∧ (no_history_entry (bots st) →
       history (interface_values (sent_state s))
       = history (interface_values st))
    ∧ ∀ (index sender : Z) (w' : Widgets),
        do_select index sender (sent_state s) w'
        = (sent_state s, w', Ok ClickIgnored).
Proof.
  intros gen text draw st w s Hfail.
  pose proof (do_send_result gen text draw st w) as Hres.
  pose proof (do_send_calls_length gen text draw st w) as Hlen.
  destruct (do_send_preserves gen text draw st w) as (_ & Hv & _ & Ho & _).
  destruct (do_send_asked gen text draw st w) as (_ & Htrace).
  fold s in Hres, Hlen, Hv, Ho, Htrace. simpl in Hres.
  assert (¬ Forall (quiet gen) (sent_calls s)) as Hnq.
  { intros Hq. apply Exists_exists in Hfail as (call & Hin & Hcall).
    rewrite Forall_forall in Hq. specialize (Hq call Hin).
    unfold quiet in Hq. congruence. }
  assert (step (sent_state s) = GENERATING
          ∧ (sent_result s = Raise GeneratorFailure
             ∨ sent_result s = Raise IndexError)) as [Hstep He].
  { destruct (sent_result s) as [o|e].
    - by destruct Hres as (_ & _ & _ & ? & _).
    - destruct Hres as [[? [?|[->| ->]]]|(_ & _ & _ & Hnil)]; auto; try done.
      rewrite Hnil in Hfail. by apply Exists_nil in Hfail. }
  split_and!; try done.
  - by rewrite Ho, (Permutation_length (shuffle_Permutation draw (bot_order st))).
  - intros k call Hk.
    destruct (Htrace k call Hk) as (Hquiet & i & bot & Hi & Hbot & Hcall).
    split.
    + intros Hraise. pose proof (lookup_lt_Some _ _ _ Hk) as Hlt.
      destruct (decide (S k = length (sent_calls s))) as [|Hne]; [done|].
      unfold quiet in Hquiet. rewrite Hquiet in Hraise by lia. done.
    + exists i, bot. rewrite Ho. split_and!; try done; by rewrite Hcall.
  - intros Hnone. by apply (do_send_history gen text draw st w).
  - intros index sender w'. apply do_select_ignored. rewrite Hstep.
    by intros [? _].
Qed.

(** The round in which the generator raises for B, the first bot asked:
    one call, and neither C nor A is asked. *)
Lemma generator_failure_aborts_round_witness :
  let s :=
    do_send Scenario.stub_failing "hi" Scenario.first_slot Scenario.started
      Scenario.started_widgets in
  Exists (λ call, raises (Scenario.stub_failing call.1 call.2) = true)
    (sent_calls s)
  ∧ (sent_result s = Raise GeneratorFailure
     ∨ sent_result s = Raise IndexError)
  ∧ step (sent_state s) = GENERATING
  ∧ bot_order (sent_state s) = [1; 2; 0]
  ∧ (length (sent_calls s) ≤ 3)%nat.
Proof.
  assert (Exists (λ call, raises (Scenario.stub_failing call.1 call.2) = true)
            (sent_calls
               (do_send Scenario.stub_failing "hi" Scenario.first_slot
                  Scenario.started Scenario.started_widgets))) as H1
    by (apply Exists_cons_hd; vm_compute; reflexivity).
  pose proof (generator_failure_aborts_round Scenario.stub_failing "hi"
                Scenario.first_slot Scenario.started Scenario.started_widgets
                H1) as (H2 & H3 & H4 & H5 & _).
  exact (conj H1 (conj H2 (conj H3 (conj H4 H5)))).
Defined.

(** C5, the claim as stated, fails: after the generator raised for the
    first bot asked, the step is [GENERATING], not [WAITING_FOR_MESSAGE],
    and the message box stays disabled. *)
Lemma failed_round_stays_generating :
  let s :=
    do_send Scenario.stub_failing "hi" Scenario.first_slot Scenario.started
      Scenario.started_widgets in
  sent_result s = Raise GeneratorFailure
  ∧ step (sent_state s) = GENERATING
  ∧ step (sent_state s) ≠ WAITING_FOR_MESSAGE
  ∧ message_interactive (sent_widgets s) = false.
Proof. vm_compute. done. Qed.

(** C6 (as the code has it).  From a state whose [bot_order] names every
    bot of the roster once (as the start leaves it), the order that
    [do_send] shuffles is again a rearrangement of the positions of the
    whole roster, without repetition, and the roster keeps its
    identifiers and votes in place: a bot is found by its position in
    the roster, which the order names.  When [do_send] returns, the click
    on the [k]-th pending position counts one vote for the roster entry
    that the order names at [k], and for no other.  The chatbot shows the
    pending replies in that very order when every generator call of the
    round yielded something: it then shows the history as it stood before
    the round followed by one row per bot of the order, each row carrying
    the bot message of the reply stored for its bot; and when no preset
    holds a history entry, the [k]-th of these rows is the row whose
    click is the click on the [k]-th pending position. *)
Theorem shuffled_order_is_roster_permutation :
  ∀ generate_chat_reply text draw (st : State) (w : Widgets),
    well_formed st →
    let s := do_send generate_chat_reply text draw st w in
    bot_order (sent_state s) ≡ₚ seq 0 (length (bots (sent_state s)))
    ∧ NoDup (bot_order (sent_state s))
    ∧ identifier <$> bots (sent_state s) = identifier <$> bots st
    ∧ votes <$> bots (sent_state s) = votes <$> bots st
    ∧ (sent_result s = Ok RepliesReady →
       (∀ k i,
          bot_order (sent_state s) !! k = Some i →
          ∃ bot r st' w',
            bots (sent_state s) !! i = Some bot
            ∧ reply bot = Some r
            ∧ do_select (pending_index (sent_state s) k) 1 (sent_state s)
                (sent_widgets s)
              = (st', w', Ok VoteAccepted)
            ∧ st' = accepted (sent_state s) i bot r
            ∧ votes <$> bots st'
              = <[i := S (votes bot)]> (votes <$> bots (sent_state s))
            ∧ identifier <$> bots st' = identifier <$> bots st)
       ∧ (Forall (productive generate_chat_reply) (sent_calls s) →
          ∃ rows,
            chatbot_value (sent_widgets s)
            = process_history (history (interface_values st)) ++ rows
            ∧ Forall2 (shows (bots (sent_state s))) rows
                (bot_order (sent_state s))
            ∧ (no_history_entry (bots st) →
               ∀ k, pending_index (sent_state s) k
                    = Z.of_nat
                        (length
                           (process_history (history (interface_values st)))
                         + k)))).
Proof.
  intros gen text draw st w Hwf s.
  pose proof (do_send_well_formed gen text draw st w Hwf) as Hwf'.
  destruct (do_send_preserves gen text draw st w) as (Hi & Hv & _).
  pose proof (do_send_result gen text draw st w) as Hres.
  fold s in Hwf', Hi, Hv, Hres. simpl in Hres.
  split_and!; try done; [by apply well_formed_NoDup|].
  intros Hok. rewrite Hok in Hres.
  destruct Hres as (_ & Hstep & _ & _ & _ & Hreplies).
  split.
  - intros k i Hk.
    rewrite Forall_forall in Hreplies.
    destruct (Hreplies i) as (bot & r & Hbot & Hr);
      [by eapply list_elem_of_lookup_2|].
    destruct (do_select_accept (sent_state s) (sent_widgets s) k i bot r
                Hstep Hk Hbot Hr) as (rk & _ & Hsel).
    eexists bot, r, _, _. split_and!; try done; simpl.
    + rewrite (fmap_share_history votes) by apply own_history_votes.
      by rewrite list_fmap_insert.
    + rewrite (fmap_share_history identifier) by apply own_history_identifier.
      by rewrite (fmap_insert_vote identifier _ _ _ Hbot).
  - intros Hprod.
    destruct (do_send_display gen text draw st w Hok) as (rows & Hrows & Hshow);
      [by apply well_formed_NoDup|done|].
    exists rows. split_and!; try done.
    intros Hnone k.
    destruct (do_send_history gen text draw st w Hnone) as (Hh & _).
    fold s in Hh. unfold pending_index, process_history.
    by rewrite Hh, length_fmap.
Qed.

(** The first round of the chat of three bots, in which every call
    yields: the order is B, C, A, and the chatbot shows the greeting
    followed by the rows of B, C and A. *)
Lemma shuffled_order_is_roster_permutation_witness :
  well_formed Scenario.started
  ∧ bot_order Scenario.waiting ≡ₚ seq 0 (length (bots Scenario.waiting))
  ∧ NoDup (bot_order Scenario.waiting)
  ∧ identifier <$> bots Scenario.waiting = identifier <$> bots Scenario.started
  ∧ ∃ rows,
      chatbot_value Scenario.waiting_widgets
      = [(None, Some "Hello")] ++ rows
      ∧ Forall2 (shows (bots Scenario.waiting)) rows [1; 2; 0].
Proof.
  assert (well_formed Scenario.started) as H1
    by (unfold well_formed; vm_compute; reflexivity).
  assert (sent_result
            (do_send Scenario.stub_generate "hi" Scenario.first_slot
               Scenario.started Scenario.started_widgets) = Ok RepliesReady)
    as Hok by (vm_compute; reflexivity).
  assert (Forall (productive Scenario.stub_generate)
            (sent_calls
               (do_send Scenario.stub_generate "hi" Scenario.first_slot
                  Scenario.started Scenario.started_widgets))) as Hprod
    by (apply Forall_forall; intros call _; discriminate).
  pose proof (shuffled_order_is_roster_permutation Scenario.stub_generate "hi"
                Scenario.first_slot Scenario.started Scenario.started_widgets
                H1) as (H2 & H3 & H4 & _ & H5).
  destruct (H5 Hok) as [_ H6].
  destruct (H6 Hprod) as (rows & Hrows & Hshows & _).
  exact (conj H1 (conj H2 (conj H3 (conj H4
           (ex_intro _ rows (conj Hrows Hshows)))))).
Defined.

(** C6, the claim as stated, fails: in the round of the chat of three
    bots in which A, asked last, yields nothing, [do_send] returns, the
    state waits for a vote on the three bots of the order, each of which
    holds a reply, and the chatbot shows two pending rows only: none
    for A. *)
Lemma silent_bot_is_not_displayed :
  let s := Edge.silent_last_round in
  sent_result s = Ok RepliesReady
  ∧ step (sent_state s) = WAITING_FOR_VOTE
  ∧ bot_order (sent_state s) = [1; 2; 0]
  ∧ (λ bot, (identifier bot, reply_visible <$> reply bot))
      <$> bots (sent_state s)
    = [("A", Some ("hi", "replyc")); ("B", Some ("hi", "replyb"));
       ("C", Some ("hi", "replyc"))]
  ∧ chatbot_value (sent_widgets s)
    = [(None, Some "Hello"); (Some "hi", Some "replyb");
       (None, Some "replyc")].
Proof. vm_compute. split_and!; reflexivity. Qed.

(** C7 (as the code has it).  When the identifiers of the roster are
    pairwise distinct, a counted vote yields a ranking that maps the
    identifier of every bot to its votes divided by the total, and these
    shares add up to one (the quotients are exact here).  The statistics
    are computed only when a vote is counted, after the increment, so the
    total is at least one: [do_select] never raises [ZeroDivisionError],
    and a click that counts no vote leaves the ranking as it was. *)
Theorem ranking_shares_sum_to_one :
  (∀ (st : State) (w : Widgets) (k i : nat) (bot : Bot) (r : Reply),
     step st = WAITING_FOR_VOTE →
     bot_order st !! k = Some i →
     bots st !! i = Some bot →
     reply bot = Some r →
     NoDup (identifier <$> bots st) →
     ∃ st' w',
       do_select (pending_index st k) 1 st w = (st', w', Ok VoteAccepted)
       ∧ total_votes (bots st') ≠ 0
       ∧ (∀ b, b ∈ bots st' →
            ranking_value w' !! identifier b
            = Some (share (total_votes (bots st')) b))
       ∧ ranking_sum (ranking_value w') = Q2Qc 1)
  ∧ (∀ (index sender : Z) (st : State) (w : Widgets),
       (do_select index sender st w).2 ≠ Raise ZeroDivisionError)
  ∧ (∀ (index sender : Z) (st : State) (w : Widgets),
       (do_select index sender st w).2 = Ok VoteAccepted
       ∨ ranking_value (do_select index sender st w).1.2 = ranking_value w).
Proof.
  split_and!.
  - intros st w k i bot r Hs Hk Hbot Hr Hnd.
    destruct (do_select_accept st w k i bot r Hs Hk Hbot Hr) as (rk & Hrk & ->).
    eexists _, _. split; [done|].
    assert (total_votes (bots (accepted st i bot r)) ≠ 0) as Hpos.
    { rewrite (total_votes_accepted _ _ _ _ Hbot). lia. }
    apply ranking_data_distinct in Hrk as (Hin & _ & Hsum).
    + split_and!; [done|done|]. cbn [ranking_value show_statistics].
      rewrite Hsum, ranking_sum_empty, Qcplus_0_l. by apply share_sum_total.
    + simpl.
      rewrite (fmap_share_history identifier) by apply own_history_identifier.
      by rewrite (fmap_insert_vote identifier _ _ _ Hbot).
    + intros b _. apply lookup_empty.
  - intros index sender st w.
    destruct (do_select_cases index sender st w)
      as [->|[->|[->|(k & i & bot & r & rk & _ & _ & _ & _ & _ & _ & _ & ->)]]];
      done.
  - intros index sender st w.
    destruct (do_select_cases index sender st w)
      as [->|[->|[->|(k & i & bot & r & rk & _ & _ & _ & _ & _ & _ & _ & ->)]]];
      auto.
Qed.

(** The vote for B among the three bots A, B and C. *)
Lemma ranking_shares_sum_to_one_witness :
  step Scenario.waiting = WAITING_FOR_VOTE
  ∧ NoDup (identifier <$> bots Scenario.waiting)
  ∧ ∃ st' w',
      do_select (pending_index Scenario.waiting 0) 1 Scenario.waiting
        Scenario.waiting_widgets = (st', w', Ok VoteAccepted)
      ∧ total_votes (bots st') ≠ 0
      ∧ (∀ b, b ∈ bots st' →
           ranking_value w' !! identifier b
           = Some (share (total_votes (bots st')) b))
      ∧ ranking_sum (ranking_value w') = Q2Qc 1.
Proof.
  assert (step Scenario.waiting = WAITING_FOR_VOTE) as H1
    by (vm_compute; reflexivity).
  assert (bot_order Scenario.waiting !! 0 = Some 1) as H2
    by (vm_compute; reflexivity).
  assert (bots Scenario.waiting !! 1 = Some Scenario.bot_B) as H3
    by (vm_compute; reflexivity).
  assert (reply Scenario.bot_B = Some Scenario.reply_B) as H4
    by reflexivity.
  assert (NoDup (identifier <$> bots Scenario.waiting)) as H5
    by (apply (bool_decide_unpack _); vm_compute; exact I).
  split_and!; try assumption.
  exact (proj1 ranking_shares_sum_to_one Scenario.waiting
           Scenario.waiting_widgets 0 1 Scenario.bot_B Scenario.reply_B
           H1 H2 H3 H4 H5).
Defined.

(** C7, the claim as stated, fails: two bots share the identifier ["A"];
    after a vote for the first one the ranking holds a single entry, the
    share of the second bot, and the shares add up to zero. *)
Lemma duplicate_identifiers_lose_share :
  let s := Scenario.twins_waiting in
  let result :=
    do_select (pending_index (sent_state s) 0) 1 (sent_state s)
      (sent_widgets s) in
  result.2 = Ok VoteAccepted
  ∧ (λ bot, (identifier bot, votes bot)) <$> bots result.1.1
    = [("A", 1); ("A", 0)]
  ∧ total_votes (bots result.1.1) = 1
  ∧ map_to_list (ranking_value result.1.2) = [("A", Q2Qc 0)]
  ∧ ranking_sum (ranking_value result.1.2) ≠ Q2Qc 1.
Proof. vm_compute. split_and!; try done. Qed.

(** C8 (as the code has it).  When no preset of the roster holds a
    history entry, every call of the generator in a round receives the
    message of the round and the shared history as it stood before the
    round: the same for every bot, holding no reply of the round;
    [do_send] leaves the shared history as it was, and so does every
    click that counts no vote. *)
Theorem generator_sees_history_before_round :
  ∀ generate_chat_reply text draw (st : State) (w : Widgets),
    no_history_entry (bots st) →
    let s := do_send generate_chat_reply text draw st w in
    Forall (λ call, call.1 = text
                    ∧ history call.2 = history (interface_values st))
      (sent_calls s)
    ∧ history (interface_values (sent_state s)) = history (interface_values st)
    ∧ ∀ (index sender : Z) (w' : Widgets),
        (do_select index sender (sent_state s) w').2 = Ok VoteAccepted
        ∨ history (interface_values (do_select index sender (sent_state s) w').1.1)
          = history (interface_values st).
Proof.
  intros gen text draw st w Hnone s.
  destruct (do_send_preserves gen text draw st w) as (_ & _ & _ & _ & Hc & _).
  destruct (do_send_history gen text draw st w Hnone) as (Hh & _ & Hch).
  fold s in Hh, Hc, Hch. split_and!; try done.
  - rewrite Forall_forall in Hc, Hch. apply Forall_forall. intros call Hin.
    split; [by apply Hc|by apply Hch].
  - intros index sender w'.
    destruct (do_select_cases index sender (sent_state s) w')
      as [->|[->|[->|(k & i & bot & r & rk & _ & _ & _ & _ & _ & _ & _ & ->)]]];
      auto.
Qed.

(** The first round of the chat of three bots, whose presets are empty:
    the three calls receive the greeting, the only exchange so far. *)
Lemma generator_sees_history_before_round_witness :
  no_history_entry (bots Scenario.started)
  ∧ Forall (λ call, call.1 = "hi"
                    ∧ history call.2
                      = mkHistory [("", "Hello")] [("", "Hello")])
      (sent_calls
         (do_send Scenario.stub_generate "hi" Scenario.first_slot
            Scenario.started Scenario.started_widgets))
  ∧ history (interface_values Scenario.waiting)
    = mkHistory [("", "Hello")] [("", "Hello")].
Proof.
  assert (no_history_entry (bots Scenario.started)) as H1
    by (repeat constructor).
  pose proof (generator_sees_history_before_round Scenario.stub_generate "hi"
                Scenario.first_slot Scenario.started Scenario.started_widgets
                H1) as (H2 & H3 & _).
  exact (conj H1 (conj H2 H3)).
Defined.

(** C8, the claim as stated, fails: the preset of B holds a history
    entry.  In the first round, A is asked with the history of the chat,
    B is asked with the history of its preset, and the round leaves the
    history of the preset in the place of the history of the chat. *)
Lemma preset_history_replaces_shared_history :
  let s := Edge.canned_round in
  sent_result s = Ok RepliesReady
  ∧ history (interface_values Edge.canned_started)
    = mkHistory [("", "Hello")] [("", "Hello")]
  ∧ (λ call, history call.2) <$> sent_calls s
    = [mkHistory [("", "Hello")] [("", "Hello")];
       mkHistory [("x", "y")] [("x", "y")]]
  ∧ history (interface_values (sent_state s))
    = mkHistory [("x", "y")] [("x", "y")]
  ∧ history (interface_values (sent_state s))
    ≠ history (interface_values Edge.canned_started).
Proof. vm_compute. split_and!; done. Qed.

(** C9 (as the code has it).  [do_stop_chat] reads and writes no state:
    from every application it returns normally, hides the chat, the
    message box, the send button and the statistics, shows the start
    button, and leaves the stored state as it is.  A second stop changes
    nothing more.  The data of the chat is dropped by the next start,
    which stores the same fresh state as a start of the initial
    application. *)
Theorem stop_chat_hides_the_chat :
  ∀ start_new_chat load_preset generate_chat_reply (app : App),
    let stopped :=
      dispatch start_new_chat load_preset generate_chat_reply StopChatClick app in
    stopped.2 = Ok Stopped
    ∧ session stopped.1 = session app
    ∧ start_chat_visible (widgets stopped.1) = true
    ∧ chatbot_visible (widgets stopped.1) = false
    ∧ message_visible (widgets stopped.1) = false
    ∧ send_visible (widgets stopped.1) = false
    ∧ ranking_visible (widgets stopped.1) = false
    ∧ table_visible (widgets stopped.1) = false
    ∧ no_statistics_visible (widgets stopped.1) = true
    ∧ dispatch start_new_chat load_preset generate_chat_reply StopChatClick
        stopped.1 = stopped
    ∧ ∀ host_values data,
        session
          (dispatch start_new_chat load_preset generate_chat_reply
             (StartChatClick host_values data) stopped.1).1
        = session
            (dispatch start_new_chat load_preset generate_chat_reply
               (StartChatClick host_values data) initial_app).1.
Proof. intros snc lp gen app. simpl. by split_and!. Qed.

(** C9, the claim as stated, fails: a chat stopped after its first vote
    still stores its state, with the step [WAITING_FOR_MESSAGE], the vote
    and the two exchanges of its history. *)
Lemma stop_keeps_session :
  let app :=
    Scenario.go
      [StartChatClick Scenario.host_values Scenario.three_bots;
       SendMessage "hi" Scenario.first_slot;
       ChatbotSelect 1 1] in
  let stopped :=
    (dispatch Scenario.stub_start Scenario.stub_preset Scenario.stub_generate
       StopChatClick app).1 in
  ∃ st,
    session stopped = Some st
    ∧ step st = WAITING_FOR_MESSAGE
    ∧ step st ≠ IDLE
    ∧ (λ bot, (identifier bot, votes bot)) <$> bots st
      = [("A", 0); ("B", 1); ("C", 0)]
    ∧ length (visible (history (interface_values st))) = 2.
Proof. vm_compute. eexists. split; [reflexivity|]. by split_and!. Qed.

(** C10. In a state that waits for a vote and whose [bot_order] names
    every bot once, a click on the bot side at or after the end of the
    history makes [do_select] raise [IndexError] exactly when its index is
    at or past the length of the history plus the number of bots: the
    lookup is checked from below only, and above that bound it fails. *)
Theorem select_lookup_guarded_from_below_only :
  ∀ (st : State) (w : Widgets) (index : Z),
    well_formed st →
    step st = WAITING_FOR_VOTE →
    (Z.of_nat (length (visible (history (interface_values st)))) ≤ index)%Z →
    (do_select index 1 st w).2 = Raise IndexError
    ↔ (Z.of_nat (length (visible (history (interface_values st)))
                 + length (bots st)) ≤ index)%Z.
Proof.
  intros st w index Hwf Hs Hi.
  destruct (do_select_guarded index st w Hs Hi) as (k & -> & _).
  rewrite <-(well_formed_length st Hwf). unfold pending_index at 2.
  destruct (decide (k < length (bot_order st))%nat) as [Hk|Hk].
  - split; [|lia]. intros Hsel. exfalso.
    apply lookup_lt_is_Some_2 in Hk as [i Hk].
    destruct (lookup_lt_is_Some_2 (bots st) i) as [bot Hbot];
      [by eapply well_formed_lookup|].
    destruct (reply bot) as [r|] eqn:Hr.
    + destruct (do_select_accept st w k i bot r Hs Hk Hbot Hr) as (rk & _ & Heq).
      by rewrite Heq in Hsel.
    + destruct (do_select_guarded (pending_index st k) st w Hs
                  (pending_index_ge st k)) as (k' & Hk' & Heq).
      apply pending_index_inj in Hk' as <-.
      unfold py_index in Heq. rewrite Hk, Hbot, Hr in Heq.
      by rewrite Heq in Hsel.
  - split; [lia|]. intros _.
    rewrite do_select_out_of_range; [done|done|lia].
Qed.

(** The click just past the three pending replies. *)
Lemma select_lookup_guarded_from_below_only_witness :
  well_formed Scenario.waiting
  ∧ step Scenario.waiting = WAITING_FOR_VOTE
  ∧ (Z.of_nat (length (visible (history (interface_values Scenario.waiting))))
     ≤ 4)%Z
  ∧ ((do_select 4 1 Scenario.waiting Scenario.waiting_widgets).2
     = Raise IndexError
     ↔ (Z.of_nat (length (visible (history (interface_values Scenario.waiting)))
                  + length (bots Scenario.waiting)) ≤ 4)%Z).
Proof.
  assert (well_formed Scenario.waiting) as H1
    by (apply (bool_decide_unpack _); vm_compute; exact I).
  assert (step Scenario.waiting = WAITING_FOR_VOTE) as H2
    by (vm_compute; reflexivity).
  assert (Z.of_nat (length (visible (history (interface_values Scenario.waiting))))
          ≤ 4)%Z as H3
    by (vm_compute; discriminate).
  split_and!; try assumption.
  exact (select_lookup_guarded_from_below_only Scenario.waiting
           Scenario.waiting_widgets 4%Z H1 H2 H3).
Defined.

(** * Further properties of the handlers *)

(** ** Rounds that end *)

Section Liveness.

Variable generate_chat_reply : string → InterfaceValues → Stream.

Lemma consume_total rc shown items row hvar w :
  Forall (λ h, visible h ≠ []) items →
  ∃ w' row',
    consume rc shown items row hvar w
    = (w', Ok (row', match last items with Some h => Some h | None => hvar end)).
Proof.
  revert row hvar w. induction items as [|h items IH]; intros row hvar w Hne.
  - by eexists _, _.
  - apply Forall_cons in Hne as [Hh Hne]. simpl. unfold py_last.
    apply last_is_Some in Hh as [m ->].
    edestruct (IH (if decide (rc = 1 ∧ m.1 ≠ "") then Some m.1 else row.1,
                   Some m.2) (Some h)) as (w' & row' & ->); [done|].
    eexists _, _. f_equal. f_equal. f_equal.
    destruct items as [|h' items]; [done|]. rewrite last_cons_cons.
    destruct (last (h' :: items)) eqn:Hlast; [done|].
    by apply last_None in Hlast.
Qed.

Lemma visit_total text rc i c :
  well_behaved generate_chat_reply →
  (i < length (l_bots c))%nat →
  ∃ c', visit generate_chat_reply text rc i c = (c', Ok ())
        ∧ length (l_bots c') = length (l_bots c).
Proof.
  intros Hgen Hi. apply lookup_lt_is_Some_2 in Hi as [bot Hbot].
  destruct (Hgen text (use_bot bot (l_values c))) as (Hq & Hne & Hall).
  unfold visit, py_index. rewrite Hbot.
  destruct (consume_total rc (l_visible_history c)
              (yields (generate_chat_reply text (use_bot bot (l_values c))))
              (None, None) (l_history c) (l_widgets c))
    as (w' & row' & ->).
  { eapply Forall_impl; [done|]. by intros h [? _]. }
  rewrite Hq.
  destruct (last _) as [h|] eqn:Hlast; [|by apply last_None in Hlast].
  apply last_Some_elem_of in Hlast. rewrite Forall_forall in Hall.
  destruct (Hall h Hlast) as [[v Hv]%last_is_Some [n Hn]%last_is_Some].
  unfold py_last. rewrite Hv, Hn. eexists. split; [done|].
  simpl. by rewrite length_insert.
Qed.

Lemma visit_all_total text rc order c :
  well_behaved generate_chat_reply →
  Forall (λ i, (i < length (l_bots c))%nat) order →
  ∃ c', visit_all generate_chat_reply text rc order c = (c', Ok ()).
Proof.
  intros Hgen. revert rc c. induction order as [|i order IH]; intros rc c Hin.
  - by eexists.
  - apply Forall_cons in Hin as [Hi Hin]. simpl.
    destruct (visit_total text rc i c Hgen Hi) as (c1 & -> & Hlen).
    apply IH. by rewrite Hlen.
Qed.

End Liveness.

(** X1. With a generator that never raises and always yields histories
    that hold a last exchange, a round over a roster that is not empty
    ends: [do_send] returns, the chat waits for a vote, every bot was asked
    exactly once and holds a reply. *)
Theorem do_send_succeeds :
  ∀ generate_chat_reply text draw (st : State) (w : Widgets),
    well_behaved generate_chat_reply →
    well_formed st →
    bots st ≠ [] →
    let s := do_send generate_chat_reply text draw st w in
    sent_result s = Ok RepliesReady
    ∧ step (sent_state s) = WAITING_FOR_VOTE
    ∧ length (sent_calls s) = length (bots st)
    ∧ Forall (λ bot, is_Some (reply bot)) (bots (sent_state s)).
Proof.
  intros gen text draw st w Hgen Hwf Hne s.
  pose proof (do_send_result gen text draw st w) as Hres.
  pose proof (do_send_well_formed gen text draw st w Hwf) as Hwf'.
  pose proof (do_send_length gen text draw st w) as Hlen.
  fold s in Hres, Hwf', Hlen. simpl in Hres.
  assert (sent_result s = Ok RepliesReady) as Hok.
  { subst s. unfold do_send in *.
    destruct (visit_all_total gen text 1 (shuffle draw (bot_order st))
                (mkLocals (bots st) (interface_values st) (history_owner st)
                   (process_history (history (interface_values st))) None
                   (lock_input w) [])) as (c' & Hall); [done|..].
    { simpl. apply Forall_forall. intros i Hi.
      rewrite shuffle_Permutation in Hi. unfold well_formed in Hwf.
      rewrite Hwf in Hi. apply elem_of_seq in Hi. lia. }
    rewrite Hall in *.
    destruct (shuffle draw (bot_order st)) as [|i order] eqn:Ho; [|done].
    exfalso. apply Hne.
    pose proof (shuffle_Permutation draw (bot_order st)) as Hp.
    rewrite Ho in Hp. apply Permutation_nil_l in Hp.
    unfold well_formed in Hwf. rewrite <-Hp in Hwf.
    apply Permutation_length in Hwf. rewrite length_seq in Hwf.
    by destruct (bots st). }
  rewrite Hok in Hres. destruct Hres as (_ & Hstep & _ & _ & Hcalls & Hrep).
  split_and!; try done.
  - by rewrite Hcalls, (well_formed_length _ Hwf'), Hlen.
  - apply Forall_forall. intros bot Hbot.
    apply list_elem_of_lookup_1 in Hbot as [i Hi].
    assert (i ∈ bot_order (sent_state s)) as Hin.
    { unfold well_formed in Hwf'. rewrite Hwf'. apply elem_of_seq.
      apply lookup_lt_Some in Hi. lia. }
    rewrite Forall_forall in Hrep.
    destruct (Hrep i Hin) as (bot' & r & Hi' & Hr). by simplify_eq.
Qed.

(** The first round of the chat of three bots, with the stub generator. *)
Lemma do_send_succeeds_witness :
  well_behaved Scenario.stub_generate
  ∧ well_formed Scenario.started
  ∧ bots Scenario.started ≠ []
  ∧ sent_result
      (do_send Scenario.stub_generate "hi" Scenario.first_slot Scenario.started
         Scenario.started_widgets) = Ok RepliesReady
  ∧ step Scenario.waiting = WAITING_FOR_VOTE.
Proof.
  assert (well_behaved Scenario.stub_generate) as H1.
  { intros text v. split_and!; [reflexivity|discriminate|].
    repeat constructor; simpl; intros [_ [=]]%app_eq_nil. }
  assert (well_formed Scenario.started) as H2
    by (unfold well_formed; vm_compute; reflexivity).
  assert (bots Scenario.started ≠ []) as H3 by (vm_compute; discriminate).
  pose proof (do_send_succeeds Scenario.stub_generate "hi" Scenario.first_slot
                Scenario.started Scenario.started_widgets H1 H2 H3)
    as (H4 & H5 & _).
  exact (conj H1 (conj H2 (conj H3 (conj H4 H5)))).
Defined.

(** ** Edge cases of a round *)

Lemma enabled_bots_none load_preset slots :
  Forall (λ s, slot_enabled s = false) slots →
  enabled_bots load_preset slots = [].
Proof.
  unfold enabled_bots. induction 1 as [|s slots Hs _ IH]; [done|].
  rewrite filter_cons_False by congruence. done.
Qed.

Lemma do_select_empty_order index sender st w :
  bot_order st = [] →
  do_select index sender st w = (st, w, Ok ClickIgnored)
  ∨ do_select index sender st w = (st, w, Raise IndexError).
Proof.
  intros Hnil. unfold do_select. case_decide; [|by left].
  rewrite Hnil. unfold py_index. rewrite lookup_nil. by right.
Qed.

(** X2. A chat started with no slot enabled has an empty roster.  Its
    first message makes [do_send] raise [UnboundLocalError] at the last
    [yield], after the step was set to [WAITING_FOR_VOTE] and without any
    generator call.  From then on no click counts a vote or changes the
    stored state: the chat can only be stopped. *)
Theorem chat_without_bots_gets_stuck :
  ∀ start_new_chat load_preset generate_chat_reply
    (host_values : InterfaceValues) (data : StartData) (app : App)
    (text : string) (draw : nat → nat),
    Forall (λ s, slot_enabled s = false) (data_slots data) →
    let app1 :=
      (dispatch start_new_chat load_preset generate_chat_reply
         (StartChatClick host_values data) app).1 in
    let sent :=
      dispatch start_new_chat load_preset generate_chat_reply
        (SendMessage text draw) app1 in
    sent.2 = Raise UnboundLocalError
    ∧ (∃ st, session sent.1 = Some st ∧ step st = WAITING_FOR_VOTE
             ∧ bots st = []
             ∧ history (interface_values st)
               = start_new_chat
                   (mkInterfaceValues (data_user_name data)
                      (data_bot_name data) (data_greeting data)
                      (history host_values) (iv_context host_values)
                      (iv_rest host_values)))
    ∧ ∀ (index sender : Z),
        let clicked :=
          dispatch start_new_chat load_preset generate_chat_reply
            (ChatbotSelect index sender) sent.1 in
        session clicked.1 = session sent.1
        ∧ (clicked.2 = Ok ClickIgnored ∨ clicked.2 = Raise IndexError).
Proof.
  intros snc lp gen host data app text draw Hoff.
  pose proof (enabled_bots_none lp _ Hoff) as Hnone.
  cbn zeta. cbn [dispatch do_start_chat fst snd session widgets initialize_state
                 bots interface_values].
  rewrite Hnone. cbn. split_and!; [done|by eexists|].
  intros index sender.
  match goal with
  | |- context [do_select index sender ?st ?w] =>
      destruct (do_select_empty_order index sender st w eq_refl) as [-> | ->]
  end; cbn; auto.
Qed.

(** The chat whose two slots are both disabled. *)
Lemma chat_without_bots_gets_stuck_witness :
  Forall (λ s, slot_enabled s = false) (data_slots Scenario.no_bots)
  ∧ (dispatch Scenario.stub_start Scenario.stub_preset Scenario.stub_generate
       (SendMessage "hi" Scenario.first_slot)
       (dispatch Scenario.stub_start Scenario.stub_preset
          Scenario.stub_generate
          (StartChatClick Scenario.host_values Scenario.no_bots)
          initial_app).1).2
    = Raise UnboundLocalError.
Proof.
  assert (Forall (λ s, slot_enabled s = false) (data_slots Scenario.no_bots))
    as H1 by (repeat constructor).
  pose proof (chat_without_bots_gets_stuck Scenario.stub_start
                Scenario.stub_preset Scenario.stub_generate
                Scenario.host_values Scenario.no_bots initial_app "hi"
                Scenario.first_slot H1) as (H2 & _).
  exact (conj H1 H2).
Defined.

(** ** What a round asks and what it stores *)

Section Trace.

Variable generate_chat_reply : string → InterfaceValues → Stream.

Lemma consume_Ok_history rc shown items row hvar w w' row' hvar' :
  consume rc shown items row hvar w = (w', Ok (row', hvar')) →
  hvar' = match last items with Some h => Some h | None => hvar end.
Proof.
  revert row hvar w. induction items as [|h items IH]; intros row hvar w; simpl.
  - by intros [= _ _ <-].
  - unfold py_last. destruct (last (visible h)) as [m|]; [|done].
    intros ->%IH. destruct items as [|h' items]; [done|].
    rewrite last_cons_cons.
    destruct (last (h' :: items)) eqn:Hlast; [done|].
    by apply last_None in Hlast.
Qed.

(** A turn of the loop that ends. *)
Lemma visit_Ok text rc i c c' :
  visit generate_chat_reply text rc i c = (c', Ok ()) →
  ∃ bot r h,
    l_bots c !! i = Some bot
    ∧ l_values c' = use_bot bot (l_values c)
    ∧ l_calls c' = l_calls c ++ [(text, l_values c')]
    ∧ l_bots c' = <[i := set_reply r bot]> (l_bots c)
    ∧ l_history c'
      = last_yielded generate_chat_reply (l_history c) [(text, l_values c')]
    ∧ l_history c' = Some h
    ∧ last (visible h) = Some (reply_visible r)
    ∧ last (internal h) = Some (reply_internal r).
Proof.
  unfold visit, py_index.
  destruct (l_bots c !! i) as [bot|] eqn:Hbot; [|done].
  destruct (consume _ _ _ _ _ _) as [w [[row hvar]|e]] eqn:Hcons; [|done].
  apply consume_Ok_history in Hcons.
  destruct (raises _); [done|]. destruct hvar as [h|]; [|done].
  unfold py_last.
  destruct (last (visible h)) as [v|] eqn:Hv; [|done].
  destruct (last (internal h)) as [n|] eqn:Hn; [|done].
  intros [= <-]. exists bot, (mkReply v n), h. by split_and!.
Qed.

Lemma last_yielded_snoc hvar calls call :
  last_yielded generate_chat_reply hvar (calls ++ [call])
  = last_yielded generate_chat_reply
      (last_yielded generate_chat_reply hvar calls) [call].
Proof. unfold last_yielded. by rewrite foldl_app. Qed.

(** The calls of a loop that ends, position by position: the call at
    position [k] was made for the bot that the order names at [k], with
    the context of that bot (that of its preset, if the preset holds
    one) and its other parameters in force; the reply stored
    for the bot is the last exchange of the last history yielded up to
    that call. *)
Lemma visit_all_trace text rc order c c' :
  visit_all generate_chat_reply text rc order c = (c', Ok ()) →
  NoDup order →
  ∃ more,
    l_calls c' = l_calls c ++ more
    ∧ (∀ j, j ∉ order → l_bots c' !! j = l_bots c !! j)
    ∧ ∀ k call i,
        more !! k = Some call → order !! k = Some i →
        ∃ bot r h,
          l_bots c' !! i = Some bot ∧ reply bot = Some r
          ∧ call.1 = text
          ∧ iv_context call.2
            = default (bot_context bot) (par_context (parameters bot))
          ∧ par_rest (parameters bot) ⊆ iv_rest call.2
          ∧ last_yielded generate_chat_reply (l_history c) (take (S k) more)
            = Some h
          ∧ last (visible h) = Some (reply_visible r)
          ∧ last (internal h) = Some (reply_internal r).
Proof.
  revert rc c. induction order as [|i order IH]; intros rc c; simpl.
  - intros [= <-] _. exists []. rewrite app_nil_r. by split_and!.
  - destruct (visit _ _ _ _ _) as [c1 [[]|e]] eqn:Hvisit; [|done].
    intros Hall [Hi Hnd]%NoDup_cons.
    destruct (IH _ _ Hall Hnd) as (more & Hmore & Hframe & Htrace).
    apply visit_Ok in Hvisit
      as (bot & r & h & Hbot & Hval & Hcalls & Hbots & Hlast & Hh & Hv & Hn).
    exists ((text, l_values c1) :: more). split_and!.
    + by rewrite Hmore, Hcalls, <-app_assoc.
    + intros j [Hne Hj]%not_elem_of_cons.
      rewrite Hframe, Hbots by done. by rewrite list_lookup_insert_ne.
    + intros [|k] call i' Hk Hi'; simplify_eq/=.
      * exists (set_reply r bot), r, h. split_and!; try done.
        -- rewrite Hframe, Hbots by done. apply list_lookup_insert_eq.
           by eapply lookup_lt_Some.
        -- by rewrite Hval.
        -- rewrite Hval. apply map_union_subseteq_l.
        -- by rewrite <-Hh, Hlast.
      * destruct (Htrace k call i' Hk Hi')
          as (bot' & r' & h' & ? & ? & ? & ? & ? & Hl & ? & ?).
        exists bot', r', h'. split_and!; try done.
        rewrite <-Hl, Hlast. done.
Qed.

End Trace.

(** X3. The generator calls of a round line up with the shuffled order,
    however the round ends: the call at position [k] is made for the bot
    at position [k] of the order, with the message of the round and the
    dictionary that [update(bot.parameters)] leaves.  In that dictionary
    the context is that of the preset of the bot if the preset holds one
    and the context of the bot otherwise; each of the entries [name1],
    [name2], [greeting] and [history] is that of the preset if the preset
    holds one, and otherwise what the call before received (what the
    state held, for the first call); so is every other entry: a
    parameter that only an earlier bot sets is still passed on to the
    later ones.  The state keeps the dictionary of the last call. *)
Theorem each_call_builds_on_the_previous :
  ∀ generate_chat_reply text draw (st : State) (w : Widgets),
    let s := do_send generate_chat_reply text draw st w in
    interface_values (sent_state s)
    = default (interface_values st) (snd <$> last (sent_calls s))
    ∧ ∀ k call,
        sent_calls s !! k = Some call →
        ∃ i bot,
          bot_order (sent_state s) !! k = Some i
          ∧ bots st !! i = Some bot
          ∧ call.1 = text
          ∧ let before :=
              match k with
              | 0 => interface_values st
              | S k' =>
                  default (interface_values st) (snd <$> sent_calls s !! k')
              end in
            iv_context call.2
            = default (bot_context bot) (par_context (parameters bot))
            ∧ name1 call.2
              = default (name1 before) (par_name1 (parameters bot))
            ∧ name2 call.2
              = default (name2 before) (par_name2 (parameters bot))
            ∧ greeting call.2
              = default (greeting before) (par_greeting (parameters bot))
            ∧ history call.2
              = default (history before) (par_history (parameters bot))
            ∧ ∀ key,
                iv_rest call.2 !! key
                = match par_rest (parameters bot) !! key with
                  | Some value => Some value
                  | None => iv_rest before !! key
                  end.
Proof.
  intros gen text draw st w s.
  destruct (do_send_asked gen text draw st w) as (Hlast & Htrace).
  destruct (do_send_preserves gen text draw st w) as (_ & _ & _ & Ho & _).
  fold s in Hlast, Htrace, Ho. split; [done|].
  intros k call Hk.
  destruct (Htrace k call Hk) as (_ & i & bot & Hi & Hbot & ->).
  exists i, bot. rewrite Ho. split_and!; try done.
  intros before. split_and!; try done.
  intros key. simpl. rewrite lookup_union.
  by destruct (par_rest (parameters bot) !! key), (iv_rest _ !! key).
Qed.

(** The first round of the chat in which the preset of B holds a context
    and a history: B is asked with the context and the history of its
    preset, not with its own context and the history of the chat. *)
Example canned_round_calls :
  (λ call, (iv_context call.2, visible (history call.2)))
    <$> sent_calls Edge.canned_round
  = [("a", [("", "Hello")]); ("z", [("x", "y")])].
Proof. vm_compute. reflexivity. Qed.

Lemma do_send_trace generate_chat_reply text draw st w :
  NoDup (bot_order st) →
  let s := do_send generate_chat_reply text draw st w in
  sent_result s = Ok RepliesReady →
  ∀ k call i,
    sent_calls s !! k = Some call →
    bot_order (sent_state s) !! k = Some i →
    ∃ bot r h,
      bots (sent_state s) !! i = Some bot ∧ reply bot = Some r
      ∧ last_yielded generate_chat_reply None (take (S k) (sent_calls s))
        = Some h
      ∧ last (visible h) = Some (reply_visible r)
      ∧ last (internal h) = Some (reply_internal r).
Proof.
  intros Hnd. unfold do_send.
  destruct (visit_all _ _ _ _ _) as [c res] eqn:Hall.
  destruct res as [[]|e]; [|done].
  assert (NoDup (shuffle draw (bot_order st))) as Hnd'
    by by rewrite shuffle_Permutation.
  destruct (visit_all_trace _ _ _ _ _ _ Hall Hnd') as (more & Hmore & _ & Htrace).
  simpl in Hmore, Htrace. subst more.
  destruct (shuffle draw (bot_order st)) as [|i0 order] eqn:Ho; [done|].
  simpl. intros _ k call i Hk Hi.
  destruct (Htrace k call i Hk Hi) as (bot & r & h & ? & ? & _ & _ & _ & ? & ? & ?).
  by exists bot, r, h.
Qed.

(** X4. When [do_send] returns, the reply stored for a bot whose call
    yielded something is the last exchange, on both sides, of the last
    history that this call yielded: only the final reply is kept. *)
Theorem stored_reply_is_final_exchange :
  ∀ generate_chat_reply text draw (st : State) (w : Widgets),
    NoDup (bot_order st) →
    let s := do_send generate_chat_reply text draw st w in
    sent_result s = Ok RepliesReady →
    ∀ k call i h,
      sent_calls s !! k = Some call →
      bot_order (sent_state s) !! k = Some i →
      last (yields (generate_chat_reply call.1 call.2)) = Some h →
      ∃ bot r,
        bots (sent_state s) !! i = Some bot ∧ reply bot = Some r
        ∧ last (visible h) = Some (reply_visible r)
        ∧ last (internal h) = Some (reply_internal r).
Proof.
  intros gen text draw st w Hnd s Hok k call i h Hk Hi Hlast.
  destruct (do_send_trace gen text draw st w Hnd Hok k call i Hk Hi)
    as (bot & r & h' & Hbot & Hr & Hl & Hv & Hn).
  fold s in Hl. rewrite (take_S_r _ _ _ Hk), last_yielded_snoc in Hl.
  simpl in Hl. rewrite Hlast in Hl. simplify_eq. by exists bot, r.
Qed.

(** The reply of B, asked first in the chat of three bots. *)
Lemma stored_reply_is_final_exchange_witness :
  NoDup (bot_order Scenario.started)
  ∧ ∃ bot r,
      bots Scenario.waiting !! 1 = Some bot ∧ reply bot = Some r
      ∧ Some ("hi", "replyb") = Some (reply_visible r)
      ∧ Some ("hi", "replyb") = Some (reply_internal r).
Proof.
  assert (NoDup (bot_order Scenario.started)) as H1
    by (apply (bool_decide_unpack _); vm_compute; exact I).
  split; [assumption|].
  refine (stored_reply_is_final_exchange Scenario.stub_generate "hi"
            Scenario.first_slot Scenario.started Scenario.started_widgets
            H1 _ 0
            ("hi", use_bot Scenario.bot_B (interface_values Scenario.started))
            1
            (mkHistory [("", "Hello"); ("hi", "replyb")]
               [("", "Hello"); ("hi", "replyb")]) _ _ _);
    vm_compute; reflexivity.
Defined.

(** X5. When [do_send] returns and the call for a bot yielded nothing,
    that bot is given the very reply of the bot asked just before it:
    the loop variable still holds the history of the earlier call. *)
Theorem silent_bot_gets_previous_reply :
  ∀ generate_chat_reply text draw (st : State) (w : Widgets),
    NoDup (bot_order st) →
    let s := do_send generate_chat_reply text draw st w in
    sent_result s = Ok RepliesReady →
    ∀ k call i j,
      sent_calls s !! S k = Some call →
      bot_order (sent_state s) !! k = Some i →
      bot_order (sent_state s) !! S k = Some j →
      yields (generate_chat_reply call.1 call.2) = [] →
      ∃ bot bot' r,
        bots (sent_state s) !! i = Some bot
        ∧ bots (sent_state s) !! j = Some bot'
        ∧ reply bot = Some r ∧ reply bot' = Some r.
Proof.
  intros gen text draw st w Hnd s Hok k call i j Hk Hi Hj Hnil.
  destruct (lookup_lt_is_Some_2 (sent_calls s) k) as [prev Hprev].
  { apply lookup_lt_Some in Hk. lia. }
  destruct (do_send_trace gen text draw st w Hnd Hok k prev i Hprev Hi)
    as (bot & r & h & Hbot & Hr & Hl & Hv & Hn).
  destruct (do_send_trace gen text draw st w Hnd Hok (S k) call j Hk Hj)
    as (bot' & r' & h' & Hbot' & Hr' & Hl' & Hv' & Hn').
  fold s in Hl, Hl'. rewrite (take_S_r _ _ _ Hk), last_yielded_snoc in Hl'.
  simpl in Hl'. rewrite Hnil in Hl'. simpl in Hl'. rewrite Hl in Hl'.
  simplify_eq. exists bot, bot', r. split_and!; try done.
  rewrite Hr'. f_equal. destruct r, r'. simpl in *. congruence.
Qed.

(** The round in which C, asked after B, yields nothing. *)
Lemma silent_bot_gets_previous_reply_witness :
  NoDup (bot_order Scenario.started)
  ∧ sent_result Edge.silent_round = Ok RepliesReady
  ∧ ∃ bot bot' r,
      bots (sent_state Edge.silent_round) !! 1 = Some bot
      ∧ bots (sent_state Edge.silent_round) !! 2 = Some bot'
      ∧ reply bot = Some r ∧ reply bot' = Some r.
Proof.
  assert (NoDup (bot_order Scenario.started)) as H1
    by (apply (bool_decide_unpack _); vm_compute; exact I).
  assert (sent_result Edge.silent_round = Ok RepliesReady) as H2
    by (vm_compute; reflexivity).
  split_and!; try assumption.
  refine (silent_bot_gets_previous_reply Edge.stub_silent "hi"
            Scenario.first_slot Scenario.started Scenario.started_widgets
            H1 H2 0
            ("hi",
             use_bot (mkBot "C" "c" ∅ 0 None)
               (use_bot Scenario.bot_B (interface_values Scenario.started)))
            1 2 _ _ _ _);
    vm_compute; reflexivity.
Defined.

(** X6. When the call for the first bot asked neither yields nor raises,
    [do_send] raises [UnboundLocalError] where it reads the loop variable
    [history], which was never bound: the step stays [GENERATING], no
    reply is stored, and the message box stays disabled. *)
Theorem silent_first_bot_raises :
  ∀ generate_chat_reply text draw (st : State) (w : Widgets)
    (i : nat) (order : list nat) (bot : Bot),
    shuffle draw (bot_order st) = i :: order →
    bots st !! i = Some bot →
    yields (generate_chat_reply text (use_bot bot (interface_values st))) = [] →
    raises (generate_chat_reply text (use_bot bot (interface_values st)))
    = false →
    let s := do_send generate_chat_reply text draw st w in
    sent_result s = Raise UnboundLocalError
    ∧ step (sent_state s) = GENERATING
    ∧ bots (sent_state s) = bots st
    ∧ sent_calls s = [(text, use_bot bot (interface_values st))]
    ∧ message_interactive (sent_widgets s) = false.
Proof.
  intros gen text draw st w i order bot Ho Hbot Hnil Hq.
  unfold do_send. rewrite Ho. cbn [visit_all].
  unfold visit, py_index. cbn [l_bots l_values l_history l_visible_history
                               l_widgets l_calls].
  rewrite Hbot, Hnil. cbn [consume]. rewrite Hq. done.
Qed.

(** The chat of three bots with a generator that yields nothing. *)
Lemma silent_first_bot_raises_witness :
  shuffle Scenario.first_slot (bot_order Scenario.started) = [1; 2; 0]
  ∧ sent_result
      (do_send Edge.stub_mute "hi" Scenario.first_slot Scenario.started
         Scenario.started_widgets) = Raise UnboundLocalError
  ∧ step
      (sent_state
         (do_send Edge.stub_mute "hi" Scenario.first_slot Scenario.started
            Scenario.started_widgets)) = GENERATING.
Proof.
  assert (shuffle Scenario.first_slot (bot_order Scenario.started) = [1; 2; 0])
    as H1 by (vm_compute; reflexivity).
  assert (bots Scenario.started !! 1 = Some (mkBot "B" "b" ∅ 0 None)) as H2
    by (vm_compute; reflexivity).
  pose proof (silent_first_bot_raises Edge.stub_mute "hi" Scenario.first_slot
                Scenario.started Scenario.started_widgets 1 [2; 0]
                (mkBot "B" "b" ∅ 0 None) H1 H2 eq_refl eq_refl)
    as (H3 & H4 & _).
  exact (conj H1 (conj H3 H4)).
Defined.

(** ** What the chatbot shows *)

Section Rows.

Variable generate_chat_reply : string → InterfaceValues → Stream.

Lemma consume_user_cell rc shown items row hvar w w' row' hvar' :
  rc ≠ 1 →
  consume rc shown items row hvar w = (w', Ok (row', hvar')) →
  row'.1 = row.1.
Proof.
  intros Hrc. revert row hvar w.
  induction items as [|h items IH]; intros row hvar w; simpl.
  - by intros [= _ <- _].
  - destruct (py_last (visible h)) as [m|]; [|done].
    intros ->%IH. simpl. rewrite decide_False; [done|]. by intros [? _].
Qed.

Lemma visit_user_cell text rc i c c' :
  rc ≠ 1 →
  visit generate_chat_reply text rc i c = (c', Ok ()) →
  ∃ row, l_visible_history c' = l_visible_history c ++ [row] ∧ row.1 = None.
Proof.
  intros Hrc. unfold visit.
  destruct (py_index _ _) as [bot|]; [|done].
  destruct (consume _ _ _ _ _ _) as [w [[row hvar]|e]] eqn:Hcons; [|done].
  apply consume_user_cell in Hcons; [|done].
  destruct (raises _); [done|]. destruct hvar as [h|]; [|done].
  destruct (py_last (visible h)); [|done].
  destruct (py_last (internal h)); [|done].
  intros [= <-]. by exists row.
Qed.

Lemma visit_all_user_cells text rc order c c' :
  (2 ≤ rc)%nat →
  visit_all generate_chat_reply text rc order c = (c', Ok ()) →
  ∃ rows,
    l_visible_history c' = l_visible_history c ++ rows
    ∧ Forall (λ row, row.1 = None) rows.
Proof.
  revert rc c. induction order as [|i order IH]; intros rc c Hrc; simpl.
  - intros [= <-]. exists []. by rewrite app_nil_r.
  - destruct (visit _ _ _ _ _) as [c1 [[]|e]] eqn:Hvisit; [|done].
    intros (rows & Hrows & Hall)%IH; [|lia].
    apply visit_user_cell in Hvisit as (row & Hrow & Hnone); [|lia].
    exists (row :: rows). split; [|by constructor].
    by rewrite Hrows, Hrow, <-app_assoc.
Qed.

Lemma visit_row text rc i c c' :
  visit generate_chat_reply text rc i c = (c', Ok ()) →
  ∃ row, l_visible_history c' = l_visible_history c ++ [row].
Proof.
  unfold visit.
  destruct (py_index _ _) as [bot|]; [|done].
  destruct (consume _ _ _ _ _ _) as [w [[row hvar]|e]]; [|done].
  destruct (raises _); [done|]. destruct hvar as [h|]; [|done].
  destruct (py_last (visible h)); [|done].
  destruct (py_last (internal h)); [|done].
  intros [= <-]. by exists row.
Qed.

End Rows.

(** X7. When [do_send] returns and every call yielded something, the
    chatbot shows the old history and then the pending rows, of which
    only the first can carry the message of the user: every later row
    has an empty user cell. *)
Theorem user_message_shown_once :
  ∀ generate_chat_reply text draw (st : State) (w : Widgets),
    NoDup (bot_order st) →
    let s := do_send generate_chat_reply text draw st w in
    sent_result s = Ok RepliesReady →
    Forall (productive generate_chat_reply) (sent_calls s) →
    ∃ row rows,
      chatbot_value (sent_widgets s)
      = process_history (history (interface_values st)) ++ row :: rows
      ∧ length (row :: rows) = length (bot_order st)
      ∧ Forall (λ r, r.1 = None) rows.
Proof.
  intros gen text draw st w Hnd. unfold do_send.
  destruct (visit_all _ _ _ _ _) as [c res] eqn:Hall.
  destruct res as [[]|e]; [|done].
  destruct (shuffle draw (bot_order st)) as [|i order] eqn:Ho; [done|].
  cbn [sent_result sent_calls sent_widgets]. intros _ Hprod.
  assert (NoDup (i :: order)) as Hnd'.
  { rewrite <-Ho. by rewrite shuffle_Permutation. }
  destruct (visit_all_display _ _ _ _ _ _ Hall Hnd' Hprod)
    as (shown & Hvh & Hrows & _ & Hshown).
  simpl in Hall.
  destruct (visit _ _ _ _ _) as [c1 [[]|e]] eqn:Hvisit; [|done].
  apply visit_all_user_cells in Hall as (rows & Hvh' & Hnone); [|lia].
  apply visit_row in Hvisit as (row & Hrow).
  simpl in Hvh, Hrow. rewrite Hrow, <-app_assoc in Hvh'.
  exists row, rows. split_and!; [|  |done].
  - simpl. by rewrite Hshown, Hvh'.
  - rewrite Hvh' in Hvh. apply app_inv_head in Hvh.
    change (row :: rows) with ([row] ++ rows). rewrite Hvh.
    rewrite (Forall2_length _ _ _ Hrows), <-Ho.
    apply Permutation_length, shuffle_Permutation.
Qed.

(** The first round of the chat of three bots. *)
Lemma user_message_shown_once_witness :
  NoDup (bot_order Scenario.started)
  ∧ ∃ row rows,
      chatbot_value Scenario.waiting_widgets
      = process_history (history (interface_values Scenario.started))
        ++ row :: rows
      ∧ length (row :: rows) = length (bot_order Scenario.started)
      ∧ Forall (λ r, r.1 = None) rows.
Proof.
  assert (NoDup (bot_order Scenario.started)) as H1
    by (apply (bool_decide_unpack _); vm_compute; exact I).
  assert (sent_result
            (do_send Scenario.stub_generate "hi" Scenario.first_slot
               Scenario.started Scenario.started_widgets) = Ok RepliesReady)
    as H2 by (vm_compute; reflexivity).
  assert (Forall (productive Scenario.stub_generate)
            (sent_calls
               (do_send Scenario.stub_generate "hi" Scenario.first_slot
                  Scenario.started Scenario.started_widgets))) as H3
    by (apply Forall_forall; intros call _; discriminate).
  split; [assumption|].
  exact (user_message_shown_once Scenario.stub_generate "hi"
           Scenario.first_slot Scenario.started Scenario.started_widgets
           H1 H2 H3).
Defined.

Lemma process_history_snoc vs ns m :
  process_history (mkHistory (vs ++ [m]) ns)
  = process_history (mkHistory vs ns)
    ++ [(if decide (m.1 = "") then None else Some m.1, Some m.2)].
Proof. unfold process_history. simpl. by rewrite fmap_app. Qed.

(** X8. A counted vote replaces the pending rows: the chatbot then shows
    the history as the state held it followed by one single row, the
    exchange of the chosen bot, whose bot cell reads
    [<div class=QUOTEchatbot-clinic-bot-identifierQUOTE>], the escaped
    identifier of the bot, [</div>], a space and the bot message of the
    reply (QUOTE being the double quotation mark, the character of code
    34); its classes are cleared, the message box and the send button
    accept input again and the statistics are on display. *)
Theorem vote_keeps_only_the_chosen_reply :
  ∀ (st : State) (w : Widgets) (k i : nat) (bot : Bot) (r : Reply),
    step st = WAITING_FOR_VOTE →
    bot_order st !! k = Some i →
    bots st !! i = Some bot →
    reply bot = Some r →
    let w' := (do_select (pending_index st k) 1 st w).1.2 in
    chatbot_value w'
    = process_history (history (interface_values st))
      ++ [(if decide ((reply_visible r).1 = "") then None
           else Some (reply_visible r).1,
           Some ("<div class="
                 +:+ String "034"%char
                       ("chatbot-clinic-bot-identifier"
                        +:+ String "034"%char
                              (">" +:+ html_escape (identifier bot)
                               +:+ "</div> " +:+ (reply_visible r).2))))]
    ∧ chatbot_classes w' = NoClasses
    ∧ message_interactive w' = true
    ∧ send_interactive w' = true
    ∧ message_value w' = message_value w
    ∧ no_statistics_visible w' = false
    ∧ ranking_visible w' = true
    ∧ table_visible w' = true.
Proof.
  intros st w k i bot r Hs Hk Hbot Hr.
  destruct (do_select_accept st w k i bot r Hs Hk Hbot Hr) as (rk & _ & ->).
  cbn. split_and!; try done.
  destruct (history (interface_values st)) as [vs ns].
  apply process_history_snoc.
Qed.

(** The vote for B in the chat of three bots. *)
Lemma vote_keeps_only_the_chosen_reply_witness :
  step Scenario.waiting = WAITING_FOR_VOTE
  ∧ chatbot_value
      (do_select 1 1 Scenario.waiting Scenario.waiting_widgets).1.2
    = [(None, Some "Hello");
       (Some "hi",
        Some ("<div class="
              +:+ String "034"%char
                    ("chatbot-clinic-bot-identifier"
                     +:+ String "034"%char ">B</div> replyb")))].
Proof.
  assert (step Scenario.waiting = WAITING_FOR_VOTE) as H1
    by (vm_compute; reflexivity).
  assert (bot_order Scenario.waiting !! 0 = Some 1) as H2
    by (vm_compute; reflexivity).
  assert (bots Scenario.waiting !! 1 = Some Scenario.bot_B) as H3
    by (vm_compute; reflexivity).
  pose proof (vote_keeps_only_the_chosen_reply Scenario.waiting
                Scenario.waiting_widgets 0 1 Scenario.bot_B Scenario.reply_B
                H1 H2 H3 eq_refl) as (H4 & _).
  exact (conj H1 H4).
Defined.

(** ** The statistics *)

Lemma table_data_votes bs : sum_list ((table_data bs).*2) = total_votes bs.
Proof.
  unfold table_data, total_votes. induction bs as [|b bs IH]; [done|].
  rewrite !fmap_cons. simpl. by rewrite IH.
Qed.

(** X9. After a counted vote the table holds one row per bot of the
    roster, in roster order, with the identifier and the votes of the
    bot, also when identifiers repeat; its votes add up to one more than
    the votes held before. *)
Theorem table_lists_every_bot :
  ∀ (st : State) (w : Widgets) (k i : nat) (bot : Bot) (r : Reply),
    step st = WAITING_FOR_VOTE →
    bot_order st !! k = Some i →
    bots st !! i = Some bot →
    reply bot = Some r →
    let table := table_value (do_select (pending_index st k) 1 st w).1.2 in
    table.*1 = identifier <$> bots st
    ∧ table.*2 = <[i := S (votes bot)]> (votes <$> bots st)
    ∧ length table = length (bots st)
    ∧ sum_list table.*2 = S (total_votes (bots st)).
Proof.
  intros st w k i bot r Hs Hk Hbot Hr.
  destruct (do_select_accept st w k i bot r Hs Hk Hbot Hr) as (rk & _ & ->).
  pose proof (total_votes_accepted st i bot r Hbot) as Htotal.
  assert (∀ bs, (table_data bs).*1 = identifier <$> bs) as Hfst
    by (intros bs; unfold table_data; by rewrite <-list_fmap_compose).
  assert (∀ bs, (table_data bs).*2 = votes <$> bs) as Hsnd
    by (intros bs; unfold table_data; by rewrite <-list_fmap_compose).
  cbn. split_and!.
  - rewrite Hfst, (fmap_share_history identifier)
      by apply own_history_identifier.
    by apply fmap_insert_vote.
  - rewrite Hsnd, (fmap_share_history votes) by apply own_history_votes.
    by rewrite list_fmap_insert.
  - unfold table_data.
    by rewrite length_fmap, length_share_history, length_insert.
  - by rewrite table_data_votes.
Qed.

(** The vote for the first of the twins. *)
Lemma table_lists_every_bot_witness :
  step (sent_state Scenario.twins_waiting) = WAITING_FOR_VOTE
  ∧ table_value
      (do_select (pending_index (sent_state Scenario.twins_waiting) 0) 1
         (sent_state Scenario.twins_waiting)
         (sent_widgets Scenario.twins_waiting)).1.2
    = [("A", 1); ("A", 0)].
Proof.
  assert (step (sent_state Scenario.twins_waiting) = WAITING_FOR_VOTE) as H1
    by (vm_compute; reflexivity).
  split; [assumption|].
  pose proof (table_lists_every_bot (sent_state Scenario.twins_waiting)
                (sent_widgets Scenario.twins_waiting) 0 0
                (mkBot "A" "a" ∅ 0
                   (Some (mkReply ("hi", "replya") ("hi", "replya"))))
                (mkReply ("hi", "replya") ("hi", "replya"))
                H1 eq_refl eq_refl eq_refl) as (Hid & Hvotes & _).
  apply (f_equal2 zip Hid) in Hvotes.
  rewrite zip_fst_snd in Hvotes. exact Hvotes.
Defined.

Lemma ranking_data_lookup total bs acc r id :
  ranking_data total bs acc = Ok r →
  r !! id
  = match last (filter (λ bot, identifier bot = id) bs) with
    | Some bot => Some (share total bot)
    | None => acc !! id
    end.
Proof.
  revert acc. induction bs as [|b bs IH]; intros acc; simpl.
  - by intros [= <-].
  - unfold py_truediv. destruct (decide (total = 0)); [done|].
    intros ->%IH. destruct (decide (identifier b = id)) as [Hid|Hid].
    + rewrite filter_cons_True by done. rewrite last_cons.
      destruct (last (filter _ bs)); [done|].
      by rewrite <-Hid, lookup_insert_eq.
    + rewrite filter_cons_False by done.
      destruct (last (filter _ bs)); [done|]. by rewrite lookup_insert_ne.
Qed.

(** X10. The ranking holds one entry per identifier that occurs in the
    roster, and no other: under an identifier it keeps the share of the
    last bot of the roster that carries it, so the share of an earlier
    bot with the same identifier is lost. *)
Theorem ranking_keeps_last_bot_per_identifier :
  ∀ (total : nat) (bs : list Bot) (r : gmap string Qc),
    ranking_data total bs ∅ = Ok r →
    ∀ id : string,
      r !! id
      = share total <$> last (filter (λ bot, identifier bot = id) bs).
Proof.
  intros total bs r Hr id. rewrite (ranking_data_lookup _ _ _ _ id Hr).
  by destruct (last _).
Qed.

(** The twins after two votes for the first and one for the second. *)
Lemma ranking_keeps_last_bot_per_identifier_witness :
  ranking_data 3 [mkBot "A" "a" ∅ 2 None; mkBot "A" "b" ∅ 1 None] ∅
  = Ok {[ "A" := share 3 (mkBot "A" "b" ∅ 1 None) ]}
  ∧ ({[ "A" := share 3 (mkBot "A" "b" ∅ 1 None) ]} : gmap string Qc) !! "A"
    = share 3
      <$> last (filter (λ bot, identifier bot = "A")
                  [mkBot "A" "a" ∅ 2 None; mkBot "A" "b" ∅ 1 None]).
Proof.
  assert (ranking_data 3 [mkBot "A" "a" ∅ 2 None; mkBot "A" "b" ∅ 1 None] ∅
          = Ok {[ "A" := share 3 (mkBot "A" "b" ∅ 1 None) ]}) as H1
    by (vm_compute; reflexivity).
  split; [assumption|].
  exact (ranking_keeps_last_bot_per_identifier 3 _ _ H1 "A").
Defined.

(** ** The identifier tag *)

Lemma list_ascii_of_string_app (s1 s2 : string) :
  String.list_ascii_of_string (s1 +:+ s2)
  = String.list_ascii_of_string s1 ++ String.list_ascii_of_string s2.
Proof. induction s1 as [|c s1 IH]; simpl; [done|]. by rewrite IH. Qed.

Lemma escape_char_markup_free c :
  Forall (λ c', c' ∉ markup_chars)
    (String.list_ascii_of_string (escape_char c)).
Proof.
  destruct c as [[] [] [] [] [] [] [] []];
    apply (bool_decide_unpack _); vm_compute; exact I.
Qed.

Lemma escape_char_plain c :
  c ∉ special_chars → escape_char c = String c EmptyString.
Proof.
  intros Hc. destruct c as [[] [] [] [] [] [] [] []]; try reflexivity;
    exfalso; apply Hc; apply (bool_decide_unpack _); vm_compute; exact I.
Qed.

(** X11. Whatever the identifier of a bot holds, its escaped form holds
    no character that opens or closes markup or an attribute value: no
    [<], no [>] and no quote, single or double.  The identifier cannot
    break out of the tag that [do_select] wraps it in. *)
Theorem html_escape_markup_free :
  ∀ s : string,
    Forall (λ c, c ∉ markup_chars)
      (String.list_ascii_of_string (html_escape s)).
Proof.
  induction s as [|c s IH]; simpl; [by constructor|].
  rewrite list_ascii_of_string_app. apply Forall_app. split; [|done].
  apply escape_char_markup_free.
Qed.

(** X12. An identifier without any of the five characters that
    [html.escape] replaces is tagged as it is. *)
Theorem html_escape_plain :
  ∀ s : string,
    Forall (λ c, c ∉ special_chars) (String.list_ascii_of_string s) →
    html_escape s = s.
Proof.
  induction s as [|c s IH]; simpl; [done|].
  intros [Hc Hs]%Forall_cons. by rewrite escape_char_plain, IH.
Qed.

(** The identifier of the second default slot. *)
Lemma html_escape_plain_witness :
  Forall (λ c, c ∉ special_chars) (String.list_ascii_of_string "Bot 2")
  ∧ html_escape "Bot 2" = "Bot 2".
Proof.
  assert (Forall (λ c, c ∉ special_chars)
            (String.list_ascii_of_string "Bot 2")) as H1
    by (apply (bool_decide_unpack _); vm_compute; exact I).
  exact (conj H1 (html_escape_plain "Bot 2" H1)).
Defined.

(** ** A chat while it runs *)

Lemma Forall2_le_refl (l : list nat) : Forall2 le l l.
Proof. apply Forall_Forall2_diag, Forall_forall. auto. Qed.

Lemma continues_refl st : continues st st.
Proof. unfold continues. split_and!; try done; apply Forall2_le_refl. Qed.

Lemma continues_trans st1 st2 st3 :
  continues st1 st2 → continues st2 st3 → continues st1 st3.
Proof.
  intros (Hs1 & Hv1 & Hc1) (Hs2 & Hv2 & Hc2).
  unfold continues. split_and!; [congruence| |].
  - eapply Forall2_trans; [|done..]. simpl. lia.
  - intros Hnone. destruct (Hc1 Hnone) as (Hp1 & Hl1 & Hi1).
    destruct (Hc2 (no_history_entry_fmap _ _ Hp1 Hnone)) as (Hp2 & Hl2 & Hi2).
    split_and!; [congruence|lia|lia].
Qed.

Lemma own_history_settings h bot : settings (own_history h bot) = settings bot.
Proof. unfold settings, own_history. by destruct (par_history _). Qed.

Lemma do_select_continues index sender st w :
  continues st (do_select index sender st w).1.1.
Proof.
  destruct (do_select_cases index sender st w)
    as [->|[->|[->|(k & i & bot & r & rk & _ & _ & _ & _ & Hbot & _ & _ & ->)]]];
    [apply continues_refl|apply continues_refl|apply (continues_refl st)|].
  unfold continues. cbn -[total_votes]. split_and!.
  - rewrite (fmap_share_history settings) by apply own_history_settings.
    by apply fmap_insert_vote.
  - rewrite (fmap_share_history votes) by apply own_history_votes.
    rewrite list_fmap_insert. simpl.
    rewrite <-(list_insert_id (votes <$> bots st) i (votes bot)) at 1
      by (by rewrite list_lookup_fmap, Hbot).
    apply Forall2_insert; [apply Forall2_le_refl|lia].
  - intros Hnone.
    assert (parameters <$> <[i := add_vote bot]> (bots st)
            = parameters <$> bots st) as Hp by by apply fmap_insert_vote.
    rewrite share_history_no_entry by by eapply no_history_entry_fmap.
    rewrite !length_app, (total_votes_insert _ _ _ Hbot). simpl.
    split_and!; [done|lia|lia].
Qed.

Section Running.

Variable start_new_chat : InterfaceValues → History.
Variable load_preset : string → Parameters.
Variable generate_chat_reply : string → InterfaceValues → Stream.

Lemma visit_settings text rc i c :
  settings <$> l_bots (visit generate_chat_reply text rc i c).1
  = settings <$> l_bots c.
Proof.
  destruct (visit _ _ _ _ _) as [c' res] eqn:Hvisit. simpl.
  apply visit_inv in Hvisit as [(_ & -> & _)|(bot & Hbot & _ & _ & Hres)];
    [done|].
  destruct Hres as [(e & _ & -> & _)|(row & r & _ & _ & -> & _)]; [done|].
  by apply (fmap_insert_same settings _ _ bot).
Qed.

Lemma visit_all_settings_fixed text rc order c :
  settings <$> l_bots (visit_all generate_chat_reply text rc order c).1
  = settings <$> l_bots c.
Proof.
  revert rc c. induction order as [|i order IH]; intros rc c; simpl; [done|].
  pose proof (visit_settings text rc i c) as Hv.
  destruct (visit _ _ _ _ _) as [c1 [[]|e]]; [|done].
  by rewrite IH.
Qed.

Lemma do_send_continues text draw st w :
  continues st (sent_state (do_send generate_chat_reply text draw st w)).
Proof.
  destruct (do_send_preserves generate_chat_reply text draw st w)
    as (_ & Hv & Hp & _).
  unfold continues. rewrite Hv. unfold total_votes. rewrite Hv.
  split_and!; try done; try apply Forall2_le_refl.
  2:{ intros Hnone.
      destruct (do_send_history generate_chat_reply text draw st w Hnone)
        as (Hh & _).
      by rewrite Hh. }
  unfold do_send.
  pose proof (visit_all_settings_fixed text 1 (shuffle draw (bot_order st))
    (mkLocals (bots st) (interface_values st) (history_owner st)
       (process_history (history (interface_values st))) None
       (lock_input w) [])) as Hs.
  destruct (visit_all _ _ _ _ _) as [c [[]|e]]; [|done].
  by destruct (shuffle draw (bot_order st)).
Qed.

Lemma dispatch_continues ev app st :
  no_start [ev] →
  session app = Some st →
  ∃ st',
    session
      (dispatch start_new_chat load_preset generate_chat_reply ev app).1
    = Some st'
    ∧ continues st st'.
Proof.
  intros Hev%Forall_inv Hst.
  destruct ev as [host data| |text draw|index sender]; [done|..]; simpl;
    rewrite ?Hst.
  - exists st. split; [done|apply continues_refl].
  - eexists. split; [done|]. apply do_send_continues.
  - pose proof (do_select_continues index sender st (widgets app)) as Hc.
    destruct (do_select index sender st (widgets app)) as [[st' w'] r].
    by exists st'.
Qed.

Lemma run_continues evs app n st :
  no_start evs →
  session app = Some st →
  ∃ st',
    session
      (run start_new_chat load_preset generate_chat_reply evs app n).1
    = Some st'
    ∧ continues st st'.
Proof.
  revert app n st. induction evs as [|ev evs IH]; intros app n st Hevs Hst.
  - exists st. split; [done|apply continues_refl].
  - apply Forall_cons in Hevs as [Hev Hevs]. simpl.
    destruct (dispatch_continues ev app st) as (st1 & Hst1 & Hc1);
      [by constructor|done|].
    destruct (dispatch _ _ _ ev app) as [app1 r]. simpl in Hst1.
    destruct (IH app1 (rounds_after ev r n) st1 Hevs Hst1) as (st' & ? & Hc).
    exists st'. split; [done|]. by eapply continues_trans.
Qed.

End Running.

(** X13. Between two clicks on the start button the roster is fixed:
    whatever is sent or clicked, every bot keeps its identifier, its
    context and the entries of its parameters other than the history
    entry, and no vote counter ever goes down.  When no preset holds a
    history entry, every bot keeps its parameters as a whole.  (A
    history entry of a preset is the very object that [do_select]
    extends once [update(bot.parameters)] has put it in
    [interface_values]: see [vote_reaches_preset_history].) *)
Theorem roster_is_fixed_while_chat_runs :
  ∀ start_new_chat load_preset generate_chat_reply
    (evs : list Event) (app : App) (n : nat) (st : State),
    no_start evs →
    session app = Some st →
    ∃ st',
      session
        (run start_new_chat load_preset generate_chat_reply evs app n).1
      = Some st'
      ∧ identifier <$> bots st' = identifier <$> bots st
      ∧ bot_context <$> bots st' = bot_context <$> bots st
      ∧ (λ bot, par_name1 (parameters bot)) <$> bots st'
        = (λ bot, par_name1 (parameters bot)) <$> bots st
      ∧ (λ bot, par_name2 (parameters bot)) <$> bots st'
        = (λ bot, par_name2 (parameters bot)) <$> bots st
      ∧ (λ bot, par_greeting (parameters bot)) <$> bots st'
        = (λ bot, par_greeting (parameters bot)) <$> bots st
      ∧ (λ bot, par_context (parameters bot)) <$> bots st'
        = (λ bot, par_context (parameters bot)) <$> bots st
      ∧ (λ bot, par_rest (parameters bot)) <$> bots st'
        = (λ bot, par_rest (parameters bot)) <$> bots st
      ∧ (no_history_entry (bots st) →
         parameters <$> bots st' = parameters <$> bots st)
      ∧ Forall2 le (votes <$> bots st) (votes <$> bots st').
Proof.
  intros snc lp gen evs app n st Hevs Hst.
  destruct (run_continues snc lp gen evs app n st Hevs Hst)
    as (st' & Hst' & Hs & Hv & Hc).
  exists st'. split_and!; try done.
  - apply (f_equal (fmap (λ x, x.1.1))) in Hs.
    by rewrite <-!list_fmap_compose in Hs.
  - apply (f_equal (fmap (λ x, x.1.2))) in Hs.
    by rewrite <-!list_fmap_compose in Hs.
  - apply (f_equal (fmap (λ x, par_name1 x.2))) in Hs.
    by rewrite <-!list_fmap_compose in Hs.
  - apply (f_equal (fmap (λ x, par_name2 x.2))) in Hs.
    by rewrite <-!list_fmap_compose in Hs.
  - apply (f_equal (fmap (λ x, par_greeting x.2))) in Hs.
    by rewrite <-!list_fmap_compose in Hs.
  - apply (f_equal (fmap (λ x, par_context x.2))) in Hs.
    by rewrite <-!list_fmap_compose in Hs.
  - apply (f_equal (fmap (λ x, par_rest x.2))) in Hs.
    by rewrite <-!list_fmap_compose in Hs.
  - intros Hnone. by destruct (Hc Hnone).
Qed.

(** A message and a vote in the chat of three bots, whose presets are
    empty: the parameters are what they were. *)
Lemma roster_is_fixed_while_chat_runs_witness :
  no_start [SendMessage "hi" Scenario.first_slot; ChatbotSelect 1 1]
  ∧ no_history_entry (bots Scenario.started)
  ∧ ∃ st',
      session
        (run Scenario.stub_start Scenario.stub_preset Scenario.stub_generate
           [SendMessage "hi" Scenario.first_slot; ChatbotSelect 1 1]
           (mkApp (Some Scenario.started) Scenario.started_widgets) 0).1
      = Some st'
      ∧ identifier <$> bots st' = identifier <$> bots Scenario.started
      ∧ bot_context <$> bots st' = bot_context <$> bots Scenario.started
      ∧ parameters <$> bots st' = parameters <$> bots Scenario.started
      ∧ Forall2 le (votes <$> bots Scenario.started) (votes <$> bots st').
Proof.
  assert (no_start [SendMessage "hi" Scenario.first_slot; ChatbotSelect 1 1])
    as H1 by (repeat constructor).
  assert (no_history_entry (bots Scenario.started)) as H2
    by (repeat constructor).
  split; [assumption|]. split; [assumption|].
  destruct (roster_is_fixed_while_chat_runs Scenario.stub_start
              Scenario.stub_preset Scenario.stub_generate
              [SendMessage "hi" Scenario.first_slot; ChatbotSelect 1 1]
              (mkApp (Some Scenario.started) Scenario.started_widgets) 0
              Scenario.started H1 eq_refl)
    as (st' & Hst' & Hi & Hc & _ & _ & _ & _ & _ & Hp & Hv).
  exists st'. exact (conj Hst' (conj Hi (conj Hc (conj (Hp H2) Hv)))).
Defined.

(** The chat in which the preset of B holds a history entry: the first
    round leaves that history in [interface_values], and the vote for
    the reply of A appends the chosen exchange to it, so that the
    parameters of B hold the longer history afterwards. *)
Example vote_reaches_preset_history :
  let voted :=
    (do_select 1 1 (sent_state Edge.canned_round)
       (sent_widgets Edge.canned_round)).1.1 in
  (λ bot, visible <$> par_history (parameters bot)) <$> bots Edge.canned_started
  = [None; Some [("x", "y")]]
  ∧ (λ bot, length ∘ visible <$> par_history (parameters bot)) <$> bots voted
    = [None; Some 2]
  ∧ (λ bot, (identifier bot, votes bot)) <$> bots voted
    = [("A", 1); ("B", 0)].
Proof. vm_compute. split_and!; reflexivity. Qed.

(** X14. Between two clicks on the start button, when no preset of the
    roster holds a history entry, both sides of the shared history only
    grow, in step, by one exchange per vote counted: the visible and the
    internal history are each as much longer as the sum of the votes is
    larger. *)
Theorem history_grows_with_the_votes :
  ∀ start_new_chat load_preset generate_chat_reply
    (evs : list Event) (app : App) (n : nat) (st : State),
    no_start evs →
    session app = Some st →
    no_history_entry (bots st) →
    ∃ st',
      session
        (run start_new_chat load_preset generate_chat_reply evs app n).1
      = Some st'
      ∧ (total_votes (bots st) ≤ total_votes (bots st'))%nat
      ∧ length (visible (history (interface_values st')))
        = (length (visible (history (interface_values st)))
           + (total_votes (bots st') - total_votes (bots st)))%nat
      ∧ length (internal (history (interface_values st')))
        = (length (internal (history (interface_values st)))
           + (total_votes (bots st') - total_votes (bots st)))%nat.
Proof.
  intros snc lp gen evs app n st Hevs Hst Hnone.
  destruct (run_continues snc lp gen evs app n st Hevs Hst)
    as (st' & Hst' & _ & Hv & Hc).
  destruct (Hc Hnone) as (_ & Hl & Hi).
  exists st'. split; [done|].
  assert (total_votes (bots st) ≤ total_votes (bots st'))%nat as Hle.
  { unfold total_votes. clear -Hv.
    induction Hv as [|x y l k Hxy _ IH]; simpl; lia. }
  split_and!; [done|lia|lia].
Qed.

(** A message and a vote in the chat of three bots. *)
Lemma history_grows_with_the_votes_witness :
  no_start [SendMessage "hi" Scenario.first_slot; ChatbotSelect 1 1]
  ∧ no_history_entry (bots Scenario.started)
  ∧ ∃ st',
      session
        (run Scenario.stub_start Scenario.stub_preset Scenario.stub_generate
           [SendMessage "hi" Scenario.first_slot; ChatbotSelect 1 1]
           (mkApp (Some Scenario.started) Scenario.started_widgets) 0).1
      = Some st'
      ∧ (total_votes (bots Scenario.started) ≤ total_votes (bots st'))%nat
      ∧ length (visible (history (interface_values st')))
        = (length (visible (history (interface_values Scenario.started)))
           + (total_votes (bots st') - total_votes (bots Scenario.started)))%nat
      ∧ length (internal (history (interface_values st')))
        = (length (internal (history (interface_values Scenario.started)))
           + (total_votes (bots st') - total_votes (bots Scenario.started)))%nat.
Proof.
  assert (no_start [SendMessage "hi" Scenario.first_slot; ChatbotSelect 1 1])
    as H1 by (repeat constructor).
  assert (no_history_entry (bots Scenario.started)) as H2
    by (repeat constructor).
  split; [assumption|]. split; [assumption|].
  exact (history_grows_with_the_votes Scenario.stub_start
           Scenario.stub_preset Scenario.stub_generate
           [SendMessage "hi" Scenario.first_slot; ChatbotSelect 1 1]
           (mkApp (Some Scenario.started) Scenario.started_widgets) 0
           Scenario.started H1 eq_refl H2).
Defined.

(** ** The widgets and the step *)

Lemma do_select_AttributeError index sender st w :
  (do_select index sender st w).2 = Raise AttributeError →
  step st = WAITING_FOR_VOTE
  ∧ ∃ k i bot,
      bot_order st !! k = Some i ∧ bots st !! i = Some bot
      ∧ reply bot = None.
Proof.
  intros Hsel.
  destruct (decide (step st = WAITING_FOR_VOTE ∧ sender = 1%Z
     ∧ (Z.of_nat (length (visible (history (interface_values st)))) ≤ index)%Z))
    as [(Hs & -> & Hi)|Hg]; [|by rewrite do_select_ignored in Hsel].
  destruct (do_select_guarded index st w Hs Hi) as (k & -> & Heq).
  unfold py_index in Heq.
  destruct (bot_order st !! k) as [i|] eqn:Hk; [|by rewrite Heq in Hsel].
  destruct (bots st !! i) as [bot|] eqn:Hbot; [|by rewrite Heq in Hsel].
  destruct (reply bot) as [r|] eqn:Hr; [|by eauto 10].
  destruct (do_select_accept st w k i bot r Hs Hk Hbot Hr) as (rk & _ & Heq').
  by rewrite Heq' in Hsel.
Qed.

Section Coherence.

Variable start_new_chat : InterfaceValues → History.
Variable load_preset : string → Parameters.
Variable generate_chat_reply : string → InterfaceValues → Stream.

Lemma dispatch_coherent ev app :
  coherent app →
  coherent (dispatch start_new_chat load_preset generate_chat_reply ev app).1.
Proof.
  unfold coherent. intros Hco.
  destruct ev as [host data| |text draw|index sender]; simpl.
  - split_and!; try done. by unfold well_formed.
  - done.
  - destruct (session app) as [st|] eqn:Hst; simpl; [|by rewrite Hst].
    destruct Hco as (_ & _ & _ & Hwf & _).
    destruct (do_send_preserves generate_chat_reply text draw st (widgets app))
      as (_ & _ & _ & _ & _ & -> & ->).
    pose proof (do_send_result generate_chat_reply text draw st (widgets app))
      as Hres.
    pose proof (do_send_well_formed generate_chat_reply text draw st
                  (widgets app) Hwf) as Hwf'.
    simpl in Hres. destruct (sent_result _) as [o|e].
    + destruct Hres as (_ & Hs & _ & _ & _ & Hrep). rewrite Hs.
      by split_and!.
    + destruct Hres as [[Hs _]|(_ & Ho & Hs & _)]; rewrite Hs.
      * by split_and!.
      * split_and!; try done. intros _. rewrite Ho. constructor.
  - destruct (session app) as [st|] eqn:Hst; simpl; [|by rewrite Hst].
    pose proof (do_select_AttributeError index sender st (widgets app)) as Hatt.
    destruct (do_select_cases index sender st (widgets app))
      as [Heq|[Heq|[Heq|(k & i & bot & r & rk & _ & _ & _ & _ & _ & _ & _ & Heq)]]];
      rewrite Heq in *; simpl in *; try done.
    + destruct Hco as (_ & _ & _ & _ & Hrep).
      destruct Hatt as (Hs & k & i & bot & Hk & Hbot & Hr); [done|].
      specialize (Hrep Hs). rewrite Forall_forall in Hrep.
      destruct (Hrep i) as (bot' & r & Hbot' & Hr');
        [by eapply list_elem_of_lookup_2|].
      congruence.
    + destruct Hco as (_ & _ & _ & Hwf & _). split_and!; try done.
      by apply accepted_well_formed.
Qed.

Lemma run_coherent evs app n :
  coherent app →
  coherent (run start_new_chat load_preset generate_chat_reply evs app n).1.
Proof.
  revert app n. induction evs as [|ev evs IH]; intros app n Hco; simpl; [done|].
  pose proof (dispatch_coherent ev app Hco) as Hstep.
  destruct (dispatch _ _ _ ev app) as [app' r]. by apply IH.
Qed.

End Coherence.

(** X15. After any sequence of events from the initial application, in
    a started chat the message box accepts input exactly when the step is
    [WAITING_FOR_MESSAGE], and so does the send button; the step of a
    started chat is never [IDLE]. *)
Theorem input_enabled_iff_waiting_for_message :
  ∀ start_new_chat load_preset generate_chat_reply (evs : list Event),
    let app :=
      (run start_new_chat load_preset generate_chat_reply evs initial_app 0).1 in
    match session app with
    | None => True
    | Some st =>
        (message_interactive (widgets app) = true
         ↔ step st = WAITING_FOR_MESSAGE)
        ∧ (send_interactive (widgets app) = true
           ↔ step st = WAITING_FOR_MESSAGE)
        ∧ step st ≠ IDLE
    end.
Proof.
  intros snc lp gen evs app.
  pose proof (run_coherent snc lp gen evs initial_app 0 I) as Hco.
  fold app in Hco. unfold coherent in Hco.
  destruct (session app); [|done]. by destruct Hco as (? & ? & ? & _).
Qed.

(** X16. After any sequence of events from the initial application, a
    click on the chatbot of a started chat ends in one of three ways: it
    is ignored, it counts a vote, or it raises [IndexError].  The reply
    of the bot it names is never missing: [AttributeError] is raised only
    while no chat was ever started. *)
Theorem click_outcomes :
  ∀ start_new_chat load_preset generate_chat_reply (evs : list Event)
    (index sender : Z),
    let app :=
      (run start_new_chat load_preset generate_chat_reply evs initial_app 0).1 in
    let r :=
      (dispatch start_new_chat load_preset generate_chat_reply
         (ChatbotSelect index sender) app).2 in
    match session app with
    | None => r = Raise AttributeError
    | Some st =>
        r = Ok ClickIgnored ∨ r = Ok VoteAccepted ∨ r = Raise IndexError
    end.
Proof.
  intros snc lp gen evs index sender app r.
  pose proof (run_coherent snc lp gen evs initial_app 0 I) as Hco.
  fold app in Hco. unfold coherent in Hco. subst r. simpl.
  destruct (session app) as [st|]; [|done].
  destruct Hco as (_ & _ & _ & _ & Hrep).
  pose proof (do_select_AttributeError index sender st (widgets app)) as Hatt.
  destruct (do_select_cases index sender st (widgets app))
    as [Heq|[Heq|[Heq|(k & i & bot & r & rk & _ & _ & _ & _ & _ & _ & _ & Heq)]]];
    rewrite Heq in *; simpl in *; auto.
  exfalso. destruct Hatt as (Hs & k & i & bot & Hk & Hbot & Hr); [done|].
  specialize (Hrep Hs). rewrite Forall_forall in Hrep.
  destruct (Hrep i) as (bot' & r & Hbot' & Hr');
    [by eapply list_elem_of_lookup_2|].
  congruence.
Qed.

(** X17. After any sequence of events from the initial application, while
    the chat waits for a vote every pending position can be chosen: the
    click on the [k]-th pending reply, for [k] below the number of bots,
    counts a vote. *)
Theorem pending_reply_can_be_chosen :
  ∀ start_new_chat load_preset generate_chat_reply (evs : list Event)
    (st : State) (k : nat),
    let app :=
      (run start_new_chat load_preset generate_chat_reply evs initial_app 0).1 in
    session app = Some st →
    step st = WAITING_FOR_VOTE →
    (k < length (bots st))%nat →
    (dispatch start_new_chat load_preset generate_chat_reply
       (ChatbotSelect (pending_index st k) 1) app).2 = Ok VoteAccepted.
Proof.
  intros snc lp gen evs st k app Hst Hs Hk.
  pose proof (run_coherent snc lp gen evs initial_app 0 I) as Hco.
  fold app in Hco. unfold coherent in Hco. rewrite Hst in Hco.
  destruct Hco as (_ & _ & _ & Hwf & Hrep). specialize (Hrep Hs).
  rewrite <-(well_formed_length st Hwf) in Hk.
  apply lookup_lt_is_Some_2 in Hk as [i Hi].
  rewrite Forall_forall in Hrep.
  destruct (Hrep i) as (bot & r & Hbot & Hr);
    [by eapply list_elem_of_lookup_2|].
  simpl. rewrite Hst.
  destruct (do_select_accept st (widgets app) k i bot r Hs Hi Hbot Hr)
    as (rk & _ & ->).
  done.
Qed.

(** The third pending reply of the chat of three bots. *)
Lemma pending_reply_can_be_chosen_witness :
  session
    (run Scenario.stub_start Scenario.stub_preset Scenario.stub_generate
       [StartChatClick Scenario.host_values Scenario.three_bots;
        SendMessage "hi" Scenario.first_slot] initial_app 0).1
  = Some Scenario.waiting
  ∧ step Scenario.waiting = WAITING_FOR_VOTE
  ∧ (2 < length (bots Scenario.waiting))%nat
  ∧ (dispatch Scenario.stub_start Scenario.stub_preset Scenario.stub_generate
       (ChatbotSelect (pending_index Scenario.waiting 2) 1)
       (run Scenario.stub_start Scenario.stub_preset Scenario.stub_generate
          [StartChatClick Scenario.host_values Scenario.three_bots;
           SendMessage "hi" Scenario.first_slot] initial_app 0).1).2
    = Ok VoteAccepted.
Proof.
  assert (session
            (run Scenario.stub_start Scenario.stub_preset
               Scenario.stub_generate
               [StartChatClick Scenario.host_values Scenario.three_bots;
                SendMessage "hi" Scenario.first_slot] initial_app 0).1
          = Some Scenario.waiting) as H1 by reflexivity.
  assert (step Scenario.waiting = WAITING_FOR_VOTE) as H2
    by (vm_compute; reflexivity).
  assert (2 < length (bots Scenario.waiting))%nat as H3
    by (vm_compute; lia).
  split_and!; try assumption.
  exact (pending_reply_can_be_chosen Scenario.stub_start Scenario.stub_preset
           Scenario.stub_generate _ Scenario.waiting 2 H1 H2 H3).
Defined.

(** X18. When the host opens every chat with as many internal as visible
    exchanges, and the history entry of every preset that holds one has
    as many internal as visible exchanges too, the stored history keeps
    as many internal as visible exchanges after any sequence of
    events. *)
Theorem history_sides_stay_aligned :
  ∀ start_new_chat load_preset generate_chat_reply (evs : list Event),
    (∀ v, length (visible (start_new_chat v))
          = length (internal (start_new_chat v))) →
    (∀ name h, par_history (load_preset name) = Some h →
               length (visible h) = length (internal h)) →
    match
      session
        (run start_new_chat load_preset generate_chat_reply evs initial_app 0).1
    with
    | None => True
    | Some st =>
        length (visible (history (interface_values st)))
        = length (internal (history (interface_values st)))
    end.
Proof.
  intros snc lp gen evs Hsnc Hlp.
  set (Q := λ p : Parameters, ∀ h, par_history p = Some h → aligned h).
  set (inv (app : App) :=
         match session app with
         | None => True
         | Some st =>
             aligned (history (interface_values st))
             ∧ Forall Q (parameters <$> bots st)
         end).
  enough (∀ app n, inv app → inv (run snc lp gen evs app n).1) as Hrun.
  { specialize (Hrun initial_app 0 I). unfold inv in Hrun.
    destruct (session _); [by destruct Hrun|done]. }
  induction evs as [|ev evs IH]; intros app n Happ; simpl; [done|].
  destruct (dispatch snc lp gen ev app) as [app' r] eqn:Hd. apply IH.
  assert (app' = (dispatch snc lp gen ev app).1) as -> by by rewrite Hd.
  clear Hd IH. unfold inv in *.
  destruct ev as [host data| |text draw|index sender]; simpl.
  - split; [apply Hsnc|]. unfold enabled_bots.
    rewrite <-list_fmap_compose. apply Forall_fmap, Forall_forall.
    intros slot _ h. apply Hlp.
  - done.
  - destruct (session app) as [st|] eqn:Hst; simpl; [|by rewrite Hst].
    destruct Happ as [Hh Hbots].
    destruct (do_send_preserves gen text draw st (widgets app))
      as (_ & _ & -> & _).
    split; [|done].
    by apply (do_send_history_from gen aligned text draw st (widgets app)).
  - destruct (session app) as [st|] eqn:Hst; simpl; [|by rewrite Hst].
    destruct Happ as [Hh Hbots].
    destruct (do_select_cases index sender st (widgets app))
      as [->|[->|[->|(k & i & bot & rp & rk & _ & _ & _ & _ & Hbot & _ & _ & ->)]]];
      simpl; try done.
    assert (aligned
              (mkHistory
                 (visible (history (interface_values st))
                  ++ [((reply_visible rp).1,
                       tagged_reply bot (reply_visible rp).2)])
                 (internal (history (interface_values st))
                  ++ [reply_internal rp]))) as Hh'.
    { unfold aligned in *. simpl. rewrite !length_app. simpl. lia. }
    split; [done|].
    apply Forall_fmap. apply Forall_fmap in Hbots.
    assert (Forall (Q ∘ parameters) (<[i := add_vote bot]> (bots st))) as Hins.
    { apply Forall_insert; [done|].
      rewrite Forall_lookup in Hbots. exact (Hbots i bot Hbot). }
    unfold share_history. destruct (history_owner st) as [j|]; [|done].
    apply Forall_alter; [done|].
    intros b _ Hb h. unfold own_history. simpl.
    destruct (par_history (parameters b)) eqn:Hp; simpl.
    + by intros [= <-].
    + rewrite Hp. done.
Qed.

(** A message and a vote with the stub host. *)
Lemma history_sides_stay_aligned_witness :
  (∀ v, length (visible (Scenario.stub_start v))
        = length (internal (Scenario.stub_start v)))
  ∧ (∀ name h, par_history (Edge.stub_canned name) = Some h →
               length (visible h) = length (internal h))
  ∧ match
      session
        (run Scenario.stub_start Edge.stub_canned Scenario.stub_generate
           [StartChatClick Scenario.host_values Edge.canned_bots;
            SendMessage "hi" (λ i, i); ChatbotSelect 1 1]
           initial_app 0).1
    with
    | None => True
    | Some st =>
        length (visible (history (interface_values st)))
        = length (internal (history (interface_values st)))
    end.
Proof.
  assert (∀ v, length (visible (Scenario.stub_start v))
               = length (internal (Scenario.stub_start v))) as H1
    by (intros v; reflexivity).
  assert (∀ name h, par_history (Edge.stub_canned name) = Some h →
                    length (visible h) = length (internal h)) as H2.
  { intros name h. unfold Edge.stub_canned.
    destruct (decide (name = "canned")); simpl; [|discriminate].
    intros [= <-]. reflexivity. }
  split; [assumption|]. split; [assumption|].
  exact (history_sides_stay_aligned Scenario.stub_start Edge.stub_canned
           Scenario.stub_generate
           [StartChatClick Scenario.host_values Edge.canned_bots;
            SendMessage "hi" (λ i, i); ChatbotSelect 1 1] H1 H2).
Defined.

(** ** Every order can be drawn *)

Lemma swap_app (y z : list nat) i j :
  (i < length y)%nat → (j < length y)%nat →
  swap (y ++ z) i j = swap y i j ++ z.
Proof.
  intros Hi Hj. unfold swap. rewrite !lookup_app_l by done.
  destruct (lookup_lt_is_Some_2 y i Hi) as [a ->].
  destruct (lookup_lt_is_Some_2 y j Hj) as [b ->].
  rewrite !insert_app_l; [done|by rewrite length_insert|done].
Qed.

Lemma shuffle_loop_app draw n (y z : list nat) :
  (n < length y)%nat →
  shuffle_loop draw n (y ++ z) = shuffle_loop draw n y ++ z.
Proof.
  revert y. induction n as [|n IH]; intros y Hn; simpl; [done|].
  assert (draw (S n) `mod` S (S n) < S (S n))%nat
    by (apply Nat.mod_upper_bound; lia).
  rewrite swap_app by lia. apply IH.
  rewrite (Permutation_length (swap_Permutation _ _ _)). lia.
Qed.

Lemma shuffle_loop_ext draw draw' n (y : list nat) :
  (∀ i, (i ≤ n)%nat → draw i = draw' i) →
  shuffle_loop draw n y = shuffle_loop draw' n y.
Proof.
  revert y. induction n as [|n IH]; intros y Hd; simpl; [done|].
  rewrite (Hd (S n)) by lia. apply IH. intros i Hi. apply Hd. lia.
Qed.

Lemma swap_lookup_last (x : list nat) n j b :
  length x = S n → x !! j = Some b → swap x n j !! n = Some b.
Proof.
  intros Hlen Hj. unfold swap.
  destruct (lookup_lt_is_Some_2 x n) as [a Ha]; [lia|]. rewrite Ha, Hj.
  destruct (decide (j = n)) as [->|Hne].
  - rewrite list_lookup_insert_eq by (rewrite length_insert; lia). congruence.
  - rewrite list_lookup_insert_ne by done.
    apply list_lookup_insert_eq. lia.
Qed.

Lemma shuffle_loop_reaches n (x p : list nat) :
  length x = S n → p ≡ₚ x → ∃ draw, shuffle_loop draw n x = p.
Proof.
  revert x p. induction n as [|n IH]; intros x p Hlen Hp.
  - exists (λ _, 0). simpl. destruct x as [|a [|? ?]]; try done.
    by apply Permutation_singleton_r in Hp.
  - assert (length p = S (S n)) as Hlenp
      by (by rewrite (Permutation_length Hp)).
    destruct (lookup_lt_is_Some_2 p (S n)) as [b Hb]; [lia|].
    assert (b ∈ x) as Hin.
    { rewrite <-Hp. by eapply list_elem_of_lookup_2. }
    apply list_elem_of_lookup_1 in Hin as [j Hj].
    pose proof (lookup_lt_Some _ _ _ Hj) as Hjlt.
    pose proof (swap_lookup_last x (S n) j b Hlen Hj) as Hlast.
    pose proof (swap_Permutation x (S n) j) as Hswap.
    assert (length (swap x (S n) j) = S (S n)) as Hlen1
      by (by rewrite (Permutation_length Hswap)).
    assert (swap x (S n) j = take (S n) (swap x (S n) j) ++ [b]) as Hx1.
    { rewrite <-(take_drop (S n) (swap x (S n) j)) at 1. f_equal.
      apply list_eq. intros [|i]; rewrite lookup_drop.
      - by rewrite Nat.add_0_r, Hlast.
      - simpl. apply lookup_ge_None_2. lia. }
    assert (p = take (S n) p ++ [b]) as Hp1.
    { rewrite <-(take_drop (S n) p) at 1. f_equal.
      apply list_eq. intros [|i]; rewrite lookup_drop.
      - by rewrite Nat.add_0_r, Hb.
      - simpl. apply lookup_ge_None_2. lia. }
    destruct (IH (take (S n) (swap x (S n) j)) (take (S n) p)) as [draw Hdraw].
    { rewrite length_take. lia. }
    { apply (inj (.++ [b])). by rewrite <-Hx1, <-Hp1, Hswap. }
    exists (λ i, if decide (i = S n) then j else draw i).
    cbn [shuffle_loop]. rewrite decide_True by done.
    rewrite Nat.mod_small by lia. rewrite Hx1.
    rewrite shuffle_loop_app by (rewrite length_take; lia).
    rewrite (shuffle_loop_ext _ draw).
    + by rewrite Hdraw, <-Hp1.
    + intros i Hi. rewrite decide_False by lia. done.
Qed.

(** X19. The shuffle can produce every order: for every rearrangement of
    a list there is a random source under which [shuffle] returns it. *)
Theorem shuffle_reaches_every_order :
  ∀ x p : list nat, p ≡ₚ x → ∃ draw, shuffle draw x = p.
Proof.
  intros x p Hp. unfold shuffle. destruct x as [|a x].
  - apply Permutation_nil_r in Hp as ->. by exists (λ _, 0).
  - by apply shuffle_loop_reaches.
Qed.

(** The order in which C is asked first, then A, then B. *)
Lemma shuffle_reaches_every_order_witness :
  [2; 0; 1] ≡ₚ [0; 1; 2] ∧ ∃ draw, shuffle draw [0; 1; 2] = [2; 0; 1].
Proof.
  assert ([2; 0; 1] ≡ₚ [0; 1; 2]) as H1
    by (apply (bool_decide_unpack _); vm_compute; exact I).
  exact (conj H1 (shuffle_reaches_every_order [0; 1; 2] [2; 0; 1] H1)).
Defined.

(** ** The slots as the interface creates them *)

Example default_identifier_tenth :
  slot_identifier (default_slot 3 "Bot" "" "" 9) = "Bot 10".
Proof. reflexivity. Qed.

Lemma default_slots_enabled max_bots enabled prefix context preset :
  filter (λ s, slot_enabled s = true)
    (default_slots max_bots enabled prefix context preset)
  = default_slot enabled prefix context preset
    <$> seq 0 (min enabled max_bots).
Proof.
  unfold default_slots. induction max_bots as [|n IH]; [by rewrite Nat.min_0_r|].
  rewrite seq_S, fmap_app, filter_app, IH. simpl.
  destruct (decide (n < enabled)%nat) as [Hn|Hn].
  - rewrite filter_cons_True by (simpl; by rewrite bool_decide_eq_true).
    rewrite filter_nil. replace (min enabled (S n)) with (S n) by lia.
    replace (min enabled n) with n by lia. by rewrite seq_S, fmap_app.
  - rewrite filter_cons_False
      by (simpl; rewrite bool_decide_eq_true; congruence).
    rewrite filter_nil, app_nil_r. f_equal. f_equal. lia.
Qed.

Lemma default_identifiers_NoDup load_preset max_bots enabled prefix context
    preset :
  NoDup
    (identifier
     <$> enabled_bots load_preset
           (default_slots max_bots enabled prefix context preset)).
Proof.
  unfold enabled_bots. rewrite default_slots_enabled, <-!list_fmap_compose.
  apply NoDup_fmap_2_strong; [|apply NoDup_seq].
  intros i j _ _ Heq. simpl in Heq.
  apply (inj (String.app prefix)), (inj (String.app " ")), (inj pretty) in Heq.
  lia.
Qed.

(** X20. With the values that the interface gives its slots, a start
    enrols the first [min enabled max_bots] slots and no other; their
    identifiers are the prefix followed by the numbers from one on, and
    no two of them are the same. *)
Theorem default_roster_is_numbered :
  ∀ load_preset (max_bots enabled : nat) (prefix context preset : string),
    let roster :=
      enabled_bots load_preset
        (default_slots max_bots enabled prefix context preset) in
    length roster = min enabled max_bots
    ∧ identifier <$> roster
      = (λ i, prefix +:+ " " +:+ pretty (S i)) <$> seq 0 (min enabled max_bots)
    ∧ NoDup (identifier <$> roster)
    ∧ Forall (λ bot, bot_context bot = context
                     ∧ parameters bot = load_preset preset
                     ∧ votes bot = 0) roster.
Proof.
  intros lp max_bots enabled prefix context preset roster.
  split_and!.
  - subst roster. unfold enabled_bots.
    by rewrite default_slots_enabled, !length_fmap, length_seq.
  - subst roster. unfold enabled_bots.
    by rewrite default_slots_enabled, <-!list_fmap_compose.
  - apply default_identifiers_NoDup.
  - subst roster. unfold enabled_bots. rewrite default_slots_enabled.
    rewrite <-list_fmap_compose. apply Forall_fmap, Forall_forall. done.
Qed.

(** X21. In a chat started with the identifiers that the interface gives
    its slots, whatever is sent and clicked afterwards, every vote that
    is counted shows a ranking whose shares add up to one. *)
Theorem default_chat_ranking_sums_to_one :
  ∀ start_new_chat load_preset generate_chat_reply
    (host_values : InterfaceValues) (user_name bot_name greeting : string)
    (max_bots enabled : nat) (prefix context preset : string)
    (evs : list Event) (index sender : Z),
    no_start evs →
    let data :=
      mkStartData user_name bot_name greeting
        (default_slots max_bots enabled prefix context preset) in
    let app :=
      (run start_new_chat load_preset generate_chat_reply
         (StartChatClick host_values data :: evs) initial_app 0).1 in
    let clicked :=
      dispatch start_new_chat load_preset generate_chat_reply
        (ChatbotSelect index sender) app in
    clicked.2 = Ok VoteAccepted →
    ranking_sum (ranking_value (widgets clicked.1)) = Q2Qc 1.
Proof.
  intros snc lp gen host user_name bot_name greeting max_bots enabled prefix
    context preset evs index sender Hevs data.
  set (st0 := (do_start_chat snc lp data (initialize_state host)
                 initial_widgets).1).
  set (w0 := (do_start_chat snc lp data (initialize_state host)
                initial_widgets).2).
  assert (run snc lp gen (StartChatClick host data :: evs) initial_app 0
          = run snc lp gen evs (mkApp (Some st0) w0) 0) as -> by reflexivity.
  destruct (run_continues snc lp gen evs (mkApp (Some st0) w0) 0 st0 Hevs
              eq_refl) as (st & Hst & Hset & _).
  cbn zeta. cbn [dispatch]. rewrite Hst.
  assert (NoDup (identifier <$> bots st)) as Hnd.
  { apply (f_equal (fmap (λ x, x.1.1))) in Hset.
    rewrite <-!list_fmap_compose in Hset.
    change ((λ x, x.1.1) ∘ settings) with identifier in Hset.
    rewrite Hset. apply default_identifiers_NoDup. }
  match goal with
  | |- context [do_select index sender st ?w] =>
      destruct (do_select_cases index sender st w)
        as [Heq|[Heq|[Heq|(k & i & bot & r & rk & _ & _ & _ & _ & Hbot & _
                             & Hrk & Heq)]]];
      rewrite Heq; try done
  end.
  intros _.
  cbn [fst snd widgets ranking_value show_statistics].
  apply ranking_data_distinct in Hrk as (_ & _ & Hsum).
  - rewrite Hsum, ranking_sum_empty, Qcplus_0_l. apply share_sum_total.
    rewrite (total_votes_accepted _ _ _ _ Hbot). lia.
  - simpl.
    rewrite (fmap_share_history identifier) by apply own_history_identifier.
    by rewrite (fmap_insert_vote identifier _ _ _ Hbot).
  - intros b _. apply lookup_empty.
Qed.

(** A message and a vote in the chat of the three default bots. *)
Lemma default_chat_ranking_sums_to_one_witness :
  no_start [SendMessage "hi" Scenario.first_slot]
  ∧ (dispatch Scenario.stub_start Scenario.stub_preset Scenario.stub_generate
       (ChatbotSelect 1 1)
       (run Scenario.stub_start Scenario.stub_preset Scenario.stub_generate
          (StartChatClick Scenario.host_values
             (mkStartData "You" "Bot" "Hello"
                (default_slots 10 3 "Bot" "" ""))
           :: [SendMessage "hi" Scenario.first_slot]) initial_app 0).1).2
    = Ok VoteAccepted
  ∧ ranking_sum
      (ranking_value
         (widgets
            (dispatch Scenario.stub_start Scenario.stub_preset
               Scenario.stub_generate (ChatbotSelect 1 1)
               (run Scenario.stub_start Scenario.stub_preset
                  Scenario.stub_generate
                  (StartChatClick Scenario.host_values
                     (mkStartData "You" "Bot" "Hello"
                        (default_slots 10 3 "Bot" "" ""))
                   :: [SendMessage "hi" Scenario.first_slot])
                  initial_app 0).1).1))
    = Q2Qc 1.
Proof.
  assert (no_start [SendMessage "hi" Scenario.first_slot]) as H1
    by (repeat constructor).
  assert ((dispatch Scenario.stub_start Scenario.stub_preset
             Scenario.stub_generate (ChatbotSelect 1 1)
             (run Scenario.stub_start Scenario.stub_preset
                Scenario.stub_generate
                (StartChatClick Scenario.host_values
                   (mkStartData "You" "Bot" "Hello"
                      (default_slots 10 3 "Bot" "" ""))
                 :: [SendMessage "hi" Scenario.first_slot])
                initial_app 0).1).2 = Ok VoteAccepted) as H2
    by (vm_compute; reflexivity).
  split_and!; try assumption.
  exact (default_chat_ranking_sums_to_one Scenario.stub_start
           Scenario.stub_preset Scenario.stub_generate Scenario.host_values
           "You" "Bot" "Hello" 10 3 "Bot" "" ""
           [SendMessage "hi" Scenario.first_slot] 1%Z 1%Z H1 H2).
Defined.

(** ** What a round leaves alone *)



Section Frame.

Variable generate_chat_reply : string → InterfaceValues → Stream.




End Frame.

